(** * Business website opportunity finder: the places service

    A shallow embedding of [app/search/_services/maps.ts], the current
    service ([determineWebsiteType], [extractSocialProfiles],
    [mapPlaceToBusiness], [searchBusinesses]), and of the filter and the
    returned record of the older [services/maps.ts], whose classifier has
    the same text and whose aggregator differs.

    Conventions of the embedding.
    - An optional field [f?: T] is an [option T]; JavaScript truthiness of
      a string is written out by [truthy] (absent and empty are falsy).
    - [WebsiteType] is the declared union; the business status is the raw
      string of the place record, because the source casts it unchecked.
    - Integers ([limit], [skip], counts) are in [Z], the radius and the
      coordinates are exact rationals in [Q]; NaN and the infinities are
      outside the embedding.
    - The vendor SDK (geocoder, nearby search, place details), the clock
      and the URL parser are parameters of the development.  Every vendor
      call is assumed to invoke its callback once.  Console output is not
      modelled. *)

From Stdlib Require Import String Ascii List ZArith QArith Qminmax Bool Lia.
From Stdlib Require Import Lqa Sorted.
Import ListNotations.

Local Open Scope string_scope.
Local Open Scope Z_scope.

(** ** JavaScript strings and arrays *)

Module JS.

(** [!!s] for an optional string. *)
Definition truthy (s : option string) : bool :=
  match s with
  | None => false
  | Some EmptyString => false
  | Some (String _ _) => true
  end.

(** [s.includes(search)]: [search] occurs in [s] at some position. *)
Fixpoint includes (s search : string) : bool :=
  if String.prefix search s then true
  else match s with
       | EmptyString => false
       | String _ s' => includes s' search
       end.

Definition lower_ascii (c : ascii) : ascii :=
  let n := nat_of_ascii c in
  if (Nat.leb 65 n && Nat.leb n 90)%bool then ascii_of_nat (n + 32) else c.

(** [s.toLowerCase()] on the ASCII range, which is all a serialised
    hostname contains. *)
Fixpoint toLowerCase (s : string) : string :=
  match s with
  | EmptyString => EmptyString
  | String c s' => String (lower_ascii c) (toLowerCase s')
  end.

(** [xs.some(p)] *)
Definition some {A} (p : A -> bool) (xs : list A) : bool := existsb p xs.

(** [xs.includes(x)] for an array of strings. *)
Definition array_includes (xs : list string) (x : string) : bool :=
  existsb (String.eqb x) xs.

(** [xs.join(sep)] *)
Definition join (sep : string) (xs : list string) : string :=
  String.concat sep xs.

(** [xs.slice(start, end)] for integer arguments: a negative index counts
    from the end, and both are clamped to the array. *)
Definition slice {A} (xs : list A) (start end_ : Z) : list A :=
  let len := Z.of_nat (length xs) in
  let k := if start <? 0 then Z.max (len + start) 0 else Z.min start len in
  let final := if end_ <? 0 then Z.max (len + end_) 0 else Z.min end_ len in
  firstn (Z.to_nat (final - k)) (skipn (Z.to_nat k) xs).

(** [Math.min(a, b)] on finite numbers. *)
Definition Math_min (a b : Q) : Q := Qmin a b.

End JS.

(** [Occurs t s]: the text [t] occurs inside [s]. *)
Definition Occurs (t s : string) : Prop :=
  exists pre post, s = pre ++ t ++ post.

(** Some entry of the table occurs inside [host]. *)
Definition OccursAny (domains : list string) (host : string) : Prop :=
  exists d, In d domains /\ Occurs d host.

(** [Subseq l1 l2]: [l1] is [l2] with some elements left out, the others
    in their order. *)
Inductive Subseq {A : Type} : list A -> list A -> Prop :=
| Subseq_nil : Subseq [] []
| Subseq_skip x l1 l2 : Subseq l1 l2 -> Subseq l1 (x :: l2)
| Subseq_keep x l1 l2 : Subseq l1 l2 -> Subseq (x :: l1) (x :: l2).

(** ** Data model ([_types/business.ts]) *)

Inductive WebsiteType : Set := none | facebook | yelp | other | legitimate.

Definition WebsiteType_eqb (a b : WebsiteType) : bool :=
  match a, b with
  | none, none | facebook, facebook | yelp, yelp
  | other, other | legitimate, legitimate => true
  | _, _ => false
  end.

Record Location := { lat : Q; lng : Q }.

Record SocialProfiles := {
  sp_facebook : option string;
  sp_yelp : option string;
  sp_instagram : option string;
  sp_other : option (list string)
}.

Record Improvements := {
  needsPhone : bool;
  needsPhotos : bool;
  needsSocialMedia : bool;
  needsWebsite : bool
}.

(** [id], [name] and [address] are read through a non-null assertion,
    which does nothing at run time: they are absent when the place record
    lacks them. *)
Record Business := {
  id : option string;
  name : option string;
  address : option string;
  location : Location;
  category : list string;
  websiteType : WebsiteType;
  websiteUrl : option string;
  socialProfiles : SocialProfiles;
  phoneNumber : option string;
  lastUpdated : Z;
  searchQuery : string;
  businessStatus : string;
  improvements : Improvements
}.

Record SearchParameters := {
  p_location : string;
  p_radius : Q;
  p_categories : option (list string);
  p_excludeWebsiteTypes : option (list WebsiteType);
  p_websiteType : option WebsiteType;
  p_limit : option Z;
  p_skip : option Z
}.

Record SearchResult := {
  businesses : list Business;
  totalCount : Z;
  hasMore : bool
}.

(** ** The vendor's records ([google.maps]) *)

Record PlaceGeometry := { g_location : option Location }.

(** The fields of [google.maps.places.PlaceResult] the service reads.  A
    photo is opaque: only the length of the list is used. *)
Record PlaceResult := {
  place_id : option string;
  pl_name : option string;
  formatted_address : option string;
  geometry : option PlaceGeometry;
  website : option string;
  url : option string;
  formatted_phone_number : option string;
  types : option (list string);
  business_status : option string;
  photos : option (list unit)
}.

Record GeocoderResult := { gr_location : Location }.

(** The status enumerations of the vendor ([google.maps.GeocoderStatus],
    [google.maps.places.PlacesServiceStatus]); each value is its own name
    as a string. *)

Inductive GeocoderStatus : Set :=
| G_OK | G_ZERO_RESULTS | G_ERROR | G_INVALID_REQUEST
| G_OVER_QUERY_LIMIT | G_REQUEST_DENIED | G_UNKNOWN_ERROR.

Inductive PlacesServiceStatus : Set :=
| OK | ZERO_RESULTS | INVALID_REQUEST | NOT_FOUND
| OVER_QUERY_LIMIT | REQUEST_DENIED | UNKNOWN_ERROR.

Definition GeocoderStatus_to_string (s : GeocoderStatus) : string :=
  match s with
  | G_OK => "OK" | G_ZERO_RESULTS => "ZERO_RESULTS" | G_ERROR => "ERROR"
  | G_INVALID_REQUEST => "INVALID_REQUEST"
  | G_OVER_QUERY_LIMIT => "OVER_QUERY_LIMIT"
  | G_REQUEST_DENIED => "REQUEST_DENIED"
  | G_UNKNOWN_ERROR => "UNKNOWN_ERROR"
  end.

Definition PlacesServiceStatus_to_string (s : PlacesServiceStatus) : string :=
  match s with
  | OK => "OK" | ZERO_RESULTS => "ZERO_RESULTS"
  | INVALID_REQUEST => "INVALID_REQUEST" | NOT_FOUND => "NOT_FOUND"
  | OVER_QUERY_LIMIT => "OVER_QUERY_LIMIT"
  | REQUEST_DENIED => "REQUEST_DENIED"
  | UNKNOWN_ERROR => "UNKNOWN_ERROR"
  end.

Record PlaceSearchRequest := {
  rq_location : Location;
  rq_radius : Q;
  rq_type : option string;
  rq_keyword : option string
}.

(** What a rejected promise or a throw carries.  The message of a
    [TypeError] is the engine's; the argument only names the undefined
    value that was read from. *)
Inductive Exn : Type :=
| Error (message : string)
| TypeError (undefined_value : string).

(** ** Domain tables *)

Definition FACEBOOK_DOMAINS : list string := ["facebook.com"; "fb.com"].
Definition YELP_DOMAINS : list string := ["yelp.com"].
Definition PLATFORM_DOMAINS : list string :=
  [ "yelp.com"; "facebook.com"; "fb.com"; "instagram.com"; "linkedin.com";
    "shopify.com"; "wix.com"; "squarespace.com"; "weebly.com";
    "wordpress.com"; "godaddy.com";
    "doordash.com"; "ubereats.com"; "grubhub.com"; "opentable.com";
    "booksy.com"; "vagaro.com";
    "yellowpages.com"; "manta.com"; "bbb.org"; "tripadvisor.com" ].

Definition genericCategories : list string :=
  [ "point_of_interest"; "establishment"; "business"; "place"; "premise";
    "store"; "local_business"; "general_contractor"; "political";
    "geocode"; "route"; "street_address"; "intersection"; "street_number";
    "subpremise"; "postal_code"; "natural_feature"; "floor"; "room";
    "postal_town"; "neighborhood"; "locality";
    "administrative_area_level_1"; "administrative_area_level_2";
    "administrative_area_level_3"; "administrative_area_level_4";
    "administrative_area_level_5"; "country"; "sublocality";
    "sublocality_level_1"; "sublocality_level_2"; "sublocality_level_3";
    "sublocality_level_4"; "sublocality_level_5" ].

(** ** Awaited calls: state passing over the outside world, with rejection *)

Module Async.
Section Defs.
Context {W : Type}.

Definition t (A : Type) : Type := W -> (Exn + A) * W.

Definition ret {A} (a : A) : t A := fun w => (inr a, w).

Definition throw {A} (e : Exn) : t A := fun w => (inl e, w).

Definition bind {A B} (m : t A) (k : A -> t B) : t B :=
  fun w =>
    match m w with
    | (inl e, w') => (inl e, w')
    | (inr a, w') => k a w'
    end.

(** [try { m } catch (error) { h error }] *)
Definition try_catch {A} (m : t A) (h : Exn -> t A) : t A :=
  fun w =>
    match m w with
    | (inl e, w') => h e w'
    | (inr a, w') => (inr a, w')
    end.

(** An operation of the outside world that always answers. *)
Definition call {A} (op : W -> A * W) : t A :=
  fun w => let (a, w') := op w in (inr a, w').

(** [xs.map(f)] where [f] may throw: left to right, the first throw
    aborts the rest. *)
Fixpoint mapM {A B} (f : A -> t B) (xs : list A) : t (list B) :=
  match xs with
  | [] => ret []
  | x :: xs' => bind (f x) (fun y => bind (mapM f xs') (fun ys => ret (y :: ys)))
  end.
End Defs.
End Async.

Declare Scope async_scope.
Delimit Scope async_scope with async.
Notation "x <- m ;; k" := (Async.bind m (fun x => k))
  (at level 100, m at next level, right associativity) : async_scope.
Notation "' pat <- m ;; k" := (Async.bind m (fun x => match x with pat => k end))
  (at level 100, pat pattern, m at next level, right associativity) : async_scope.

(** ** The deduplication map

    [Map<string, PlaceResult>]: the entries in insertion order, which is
    the order [entries()] iterates in. *)

Module PlaceMap.

Definition t : Type := list (string * PlaceResult).

Definition empty : t := [].

Definition has (m : t) (k : string) : bool :=
  existsb (fun e => String.eqb k (fst e)) m.

Fixpoint get (m : t) (k : string) : option PlaceResult :=
  match m with
  | [] => None
  | (k', v) :: m' => if String.eqb k k' then Some v else get m' k
  end.

(** [m.set(k, v)]: a present key keeps its position, a new key goes last. *)
Fixpoint set (m : t) (k : string) (v : PlaceResult) : t :=
  match m with
  | [] => [(k, v)]
  | (k', v') :: m' =>
      if String.eqb k k' then (k', v) :: m' else (k', v') :: set m' k v
  end.

Definition size (m : t) : Z := Z.of_nat (length m).

Definition keys (m : t) : list string := map fst m.

End PlaceMap.

(** ** Pure steps of the aggregator *)

(** [const searchRadii: number[] = []; if (radius <= 2000) ...] *)
Definition searchRadii (radius : Q) : list Q :=
  if Qle_bool radius 2000 then [radius]
  else if Qle_bool radius 10000 then [JS.Math_min 2000 (radius / 2); radius]
  else [2000; 5000; 10000; radius]%Q.

(** The nearby-search request of one tier. *)
Definition searchRequest (searchLocation : Location) (searchRadius : Q)
    (categories : option (list string)) : PlaceSearchRequest :=
  let type :=
    match categories with
    | Some [c] => Some c
    | _ => None
    end in
  let keyword :=
    match categories with
    | Some (c :: cs) =>
        if negb (JS.truthy type) then Some (JS.join " " (c :: cs)) else None
    | _ => None
    end in
  {| rq_location := searchLocation; rq_radius := searchRadius;
     rq_type := type; rq_keyword := keyword |}.

(** [if (place.place_id && !allPlaces.has(place.place_id)) allPlaces.set(...)] *)
Definition addPlace (allPlaces : PlaceMap.t) (place : PlaceResult) : PlaceMap.t :=
  match place_id place with
  | Some pid =>
      if (JS.truthy (Some pid) && negb (PlaceMap.has allPlaces pid))%bool
      then PlaceMap.set allPlaces pid place
      else allPlaces
  | None => allPlaces
  end.

(** [for (const place of results) ...] *)
Definition addPlaces (results : list PlaceResult) (allPlaces : PlaceMap.t)
  : PlaceMap.t :=
  fold_left addPlace results allPlaces.

Definition isPermanentlyClosed (business : Business) : bool :=
  String.eqb (businessStatus business) "PERMANENTLY_CLOSED".

(** The callback of [.filter(...)] in [searchBusinesses]. *)
Definition keepBusiness (wt : option WebsiteType)
    (excludeWebsiteTypes : option (list WebsiteType)) (business : Business)
  : bool :=
  if isPermanentlyClosed business then false
  else
    match wt with
    | Some w => WebsiteType_eqb (websiteType business) w
    | None =>
        match excludeWebsiteTypes with
        | Some (t :: ts) =>
            negb (existsb (WebsiteType_eqb (websiteType business)) (t :: ts))
        | _ => true
        end
    end.

(** [const { ..., limit = 20, skip = 0 } = params] *)
Definition limitOf (params : SearchParameters) : Z :=
  match p_limit params with Some l => l | None => 20 end.

Definition skipOf (params : SearchParameters) : Z :=
  match p_skip params with Some s => s | None => 0 end.

(** The last statements of [searchBusinesses]: slice and count. *)
Definition paginate (allPlaces : PlaceMap.t) (filtered : list Business)
    (skip limit : Z) : SearchResult :=
  let totalFilteredCount := Z.of_nat (length filtered) in
  {| businesses := JS.slice filtered skip (skip + limit);
     totalCount := PlaceMap.size allPlaces;
     hasMore := totalFilteredCount >? skip + limit |}.

(** The [fields] asked of the detail service. *)
Definition detailFields : list string :=
  [ "name"; "formatted_address"; "geometry"; "website"; "url";
    "formatted_phone_number"; "types"; "business_status"; "photos" ].

(** ** The service *)

Section Maps.

(** [new URL(url).hostname], [None] when the constructor throws. *)
Variable URL_hostname : string -> option string.

(** The outside world and its operations: each vendor call hands its
    callback a result (or null) and a status. *)
Variable World : Type.
Variable geocode :
  string -> World -> (option (list GeocoderResult) * GeocoderStatus) * World.
Variable nearbySearch :
  PlaceSearchRequest -> World ->
  (option (list PlaceResult) * PlacesServiceStatus) * World.
Variable getDetails :
  string -> list string -> World ->
  (option PlaceResult * PlacesServiceStatus) * World.
(** [new Date()] *)
Variable Date_now : World -> Z * World.

(** A [Promise<A>] awaited by the caller. *)
Definition Promise (A : Type) : Type := @Async.t World A.

(** *** Classifier *)

Definition determineWebsiteType (url : option string) : WebsiteType :=
  if negb (JS.truthy url) then none
  else
    match url with
    | None => none
    | Some u =>
        match URL_hostname u with
        | None => none
        | Some hostname =>
            let domain := JS.toLowerCase hostname in
            if JS.some (fun fb => JS.includes domain fb) FACEBOOK_DOMAINS
            then facebook
            else if JS.some (fun yelp => JS.includes domain yelp) YELP_DOMAINS
            then yelp
            else if JS.some (fun platform => JS.includes domain platform)
                      PLATFORM_DOMAINS
            then other
            else legitimate
        end
    end.

Definition no_profiles : SocialProfiles :=
  {| sp_facebook := None; sp_yelp := None; sp_instagram := None;
     sp_other := None |}.

Definition extractSocialProfiles (urls : list string) : SocialProfiles :=
  fold_left
    (fun profiles u =>
       match URL_hostname u with
       | None => profiles
       | Some hostname =>
           let domain := JS.toLowerCase hostname in
           if JS.some (fun fb => JS.includes domain fb) FACEBOOK_DOMAINS
           then {| sp_facebook := Some u; sp_yelp := sp_yelp profiles;
                   sp_instagram := sp_instagram profiles;
                   sp_other := sp_other profiles |}
           else if JS.some (fun yelp => JS.includes domain yelp) YELP_DOMAINS
           then {| sp_facebook := sp_facebook profiles; sp_yelp := Some u;
                   sp_instagram := sp_instagram profiles;
                   sp_other := sp_other profiles |}
           else if JS.includes domain "instagram.com"
           then {| sp_facebook := sp_facebook profiles;
                   sp_yelp := sp_yelp profiles;
                   sp_instagram := Some u;
                   sp_other := sp_other profiles |}
           else {| sp_facebook := sp_facebook profiles;
                   sp_yelp := sp_yelp profiles;
                   sp_instagram := sp_instagram profiles;
                   sp_other :=
                     Some ((match sp_other profiles with
                            | Some o => o
                            | None => []
                            end) ++ [u])%list |}
       end)
    urls no_profiles.

(** [let businessStatus = "OPERATIONAL"; if (place.business_status) ...] *)
Definition statusOf (place : PlaceResult) : string :=
  if JS.truthy (business_status place)
  then match business_status place with
       | Some s => s
       | None => "OPERATIONAL"
       end
  else "OPERATIONAL".

(** [const improvements = { ... }] *)
Definition computeImprovements (place : PlaceResult) (wt : WebsiteType)
  : Improvements :=
  {| needsPhone := negb (JS.truthy (formatted_phone_number place));
     needsPhotos :=
       match photos place with
       | None => true
       | Some ps => Z.of_nat (length ps) <? 3
       end;
     needsSocialMedia := false;
     needsWebsite := negb (WebsiteType_eqb wt legitimate) |}.

(** [place.types?.filter((type) => !genericCategories.includes(type)) || []] *)
Definition filterCategories (raw : option (list string)) : list string :=
  match raw with
  | None => []
  | Some ts =>
      filter (fun type => negb (JS.array_includes genericCategories type)) ts
  end.

Local Open Scope async_scope.

(** Reading [lat()] off an absent geometry or location throws before
    the clock is read. *)
Definition mapPlaceToBusiness (place : PlaceResult) (query : string)
  : Promise Business :=
  let website := website place in
  let websiteType := determineWebsiteType website in
  let socialProfiles :=
    extractSocialProfiles
      (match url place with
       | Some u => if JS.truthy (Some u) then [u] else []
       | None => []
       end) in
  let businessStatus := statusOf place in
  let improvements := computeImprovements place websiteType in
  let filteredCategories := filterCategories (types place) in
  match geometry place with
  | None => Async.throw (TypeError "place.geometry")
  | Some g =>
      match g_location g with
      | None => Async.throw (TypeError "place.geometry.location")
      | Some loc =>
          now <- Async.call Date_now ;;
          Async.ret
            {| id := place_id place;
               name := pl_name place;
               address := formatted_address place;
               location := {| lat := lat loc; lng := lng loc |};
               category := filteredCategories;
               websiteType := websiteType;
               websiteUrl := website;
               socialProfiles := socialProfiles;
               phoneNumber := formatted_phone_number place;
               lastUpdated := now;
               searchQuery := query;
               businessStatus := businessStatus;
               improvements := improvements |}
      end
  end.

(** *** Aggregator *)

Definition geocodePromise (address : string) : Promise (list GeocoderResult) :=
  r <- Async.call (geocode address) ;;
  match r with
  | (Some results, G_OK) => Async.ret results
  | (_, status) =>
      Async.throw
        (Error ("Geocoding failed: " ++ GeocoderStatus_to_string status))
  end.

Definition nearbySearchPromise (request : PlaceSearchRequest)
  : Promise (list PlaceResult) :=
  r <- Async.call (nearbySearch request) ;;
  match r with
  | (Some results, OK) => Async.ret results
  | (_, ZERO_RESULTS) => Async.ret []
  | (_, status) =>
      Async.throw
        (Error ("Places search failed: "
                ++ PlacesServiceStatus_to_string status))
  end.

Definition getDetailsPromise (placeId : string) : Promise PlaceResult :=
  r <- Async.call (getDetails placeId detailFields) ;;
  match r with
  | (Some result, OK) => Async.ret result
  | (_, status) =>
      Async.throw
        (Error ("Place details failed: "
                ++ PlacesServiceStatus_to_string status))
  end.

Section Loops.
Variable searchLocation : Location.
Variable categories : option (list string).
Variable targetResults : Z.

(** The body of the [try] of one tier.  [totalCount] is the local
    counter, not the field of the result. *)
Definition searchTier (searchRadius : Q) (st : PlaceMap.t * Z)
  : Promise (PlaceMap.t * Z) :=
  results <- nearbySearchPromise
               (searchRequest searchLocation searchRadius categories) ;;
  Async.ret (addPlaces results (fst st),
             snd st + Z.of_nat (length results)).

(** [for (const searchRadius of searchRadii) { ... }] *)
Fixpoint tierLoop (radii : list Q) (st : PlaceMap.t * Z)
  : Promise (PlaceMap.t * Z) :=
  match radii with
  | [] => Async.ret st
  | searchRadius :: rest =>
      if PlaceMap.size (fst st) >=? targetResults then Async.ret st
      else
        st' <- Async.try_catch (searchTier searchRadius st)
                 (fun _ => Async.ret st) ;;
        tierLoop rest st'
  end.

(** [for (const [placeId, basicPlace] of allPlaces.entries()) { ... }] *)
Fixpoint detailLoop (entries : PlaceMap.t) (detailedPlaces : list PlaceResult)
  : Promise (list PlaceResult) :=
  match entries with
  | [] => Async.ret detailedPlaces
  | (placeId, _) :: rest =>
      if Z.of_nat (length detailedPlaces) >=? targetResults
      then Async.ret detailedPlaces
      else
        detailedPlaces' <-
          Async.try_catch
            (detailedPlace <- getDetailsPromise placeId ;;
             Async.ret (detailedPlaces ++ [detailedPlace])%list)
            (fun _ => Async.ret detailedPlaces) ;;
        detailLoop rest detailedPlaces'
  end.
End Loops.

Definition searchBusinesses (params : SearchParameters) : Promise SearchResult :=
  let limit := limitOf params in
  let skip := skipOf params in
  let targetResults := limit * 3 in
  geocodeResult <- geocodePromise (p_location params) ;;
  match geocodeResult with
  | [] => Async.throw (TypeError "geocodeResult[0]")
  | first :: _ =>
      let searchLocation := gr_location first in
      st <- tierLoop searchLocation (p_categories params) targetResults
              (searchRadii (p_radius params)) (PlaceMap.empty, 0) ;;
      let allPlaces := fst st in
      detailedPlaces <- detailLoop targetResults allPlaces [] ;;
      mapped <- Async.mapM
                  (fun place => mapPlaceToBusiness place (p_location params))
                  detailedPlaces ;;
      let filtered :=
        filter (keepBusiness (p_websiteType params)
                  (p_excludeWebsiteTypes params)) mapped in
      Async.ret (paginate allPlaces filtered skip limit)
  end.

End Maps.

(** ** Vocabulary for the runs of the aggregator *)

(** The map after the result lists of the answered tiers, in order. *)
Definition accumulate (tiers : list (list PlaceResult)) (m : PlaceMap.t)
  : PlaceMap.t :=
  fold_left (fun acc results => addPlaces results acc) tiers m.

(** The sum of the per-tier result counts. *)
Definition resultCount (tiers : list (list PlaceResult)) : Z :=
  fold_right (fun results n => Z.of_nat (length results) + n) 0 tiers.

(** [results] is what some nearby search handed to the tier loop: the list
    of an OK answer, or the empty list of a ZERO_RESULTS answer. *)
Definition TierAnswer {World : Type}
    (nearbySearch :
       PlaceSearchRequest -> World ->
       (option (list PlaceResult) * PlacesServiceStatus) * World)
    (results : list PlaceResult) : Prop :=
  exists request w r status w',
    nearbySearch request w = ((r, status), w')
    /\ ((r = Some results /\ status = OK)
        \/ (status = ZERO_RESULTS /\ results = [])).

(** [d] is the record some detail fetch for [placeId] answered with. *)
Definition Fetched {World : Type}
    (getDetails :
       string -> list string -> World ->
       (option PlaceResult * PlacesServiceStatus) * World)
    (placeId : string) (d : PlaceResult) : Prop :=
  exists w w', getDetails placeId detailFields w = ((Some d, OK), w').

(** The detail service answers with the identifier it was asked for. *)
Definition EchoesId {World : Type}
    (getDetails :
       string -> list string -> World ->
       (option PlaceResult * PlacesServiceStatus) * World) : Prop :=
  forall placeId d, Fetched getDetails placeId d -> place_id d = Some placeId.

(** ** The older aggregator ([services/maps.ts])

    [determineWebsiteType], [extractSocialProfiles] and the handling of
    [business_status] have the same text in both files.  The older
    [searchBusinesses] issues one nearby search, has no [websiteType] and
    no [skip] parameter, and filters and counts differently. *)

Module Legacy.

(** The callback of [.filter(...)] in the older [searchBusinesses]. *)
Definition keepBusiness (excludeWebsiteTypes : option (list WebsiteType))
    (business : Business) : bool :=
  if isPermanentlyClosed business then false
  else
    match excludeWebsiteTypes with
    | Some (t :: ts) =>
        existsb (WebsiteType_eqb (websiteType business)) (t :: ts)
    | _ => negb (WebsiteType_eqb (websiteType business) legitimate)
    end.

(** [.slice(0, limit)] and the returned record. *)
Definition paginate (filtered : list Business) (limit : Z) : SearchResult :=
  let businesses := JS.slice filtered 0 limit in
  {| businesses := businesses;
     totalCount := Z.of_nat (length businesses);
     hasMore := false |}.

End Legacy.

(** ** A scripted outside world, for running the service *)

Module Demo.

Definition is_delim (c : ascii) : bool :=
  match c with
  | "/"%char | "?"%char | "#"%char | ":"%char => true
  | _ => false
  end.

Fixpoint take_host (s : string) : string :=
  match s with
  | EmptyString => EmptyString
  | String c s' => if is_delim c then EmptyString else String c (take_host s')
  end.

Definition after_scheme (u : string) : option string :=
  if String.prefix "https://" u
  then Some (String.substring 8 (String.length u - 8) u)
  else if String.prefix "http://" u
  then Some (String.substring 7 (String.length u - 7) u)
  else None.

(** The hostname of an absolute [http(s)://host[:port][/...]] address, and
    a failure on anything else: enough of the URL parser for the runs
    below. *)
Definition URL_hostname (u : string) : option string :=
  match after_scheme u with
  | Some r =>
      match take_host r with
      | EmptyString => None
      | h => Some (JS.toLowerCase h)
      end
  | None => None
  end.

Inductive Call : Type :=
| CallGeocode (address : string)
| CallNearbySearch (request : PlaceSearchRequest)
| CallGetDetails (placeId : string) (fields : list string)
| CallDate.

(** The world is the log of the calls made so far, oldest first; the
    clock advances by one at every call. *)
Definition World : Type := list Call.

Record Script := {
  on_geocode : string -> option (list GeocoderResult) * GeocoderStatus;
  on_nearbySearch :
    PlaceSearchRequest -> option (list PlaceResult) * PlacesServiceStatus;
  on_getDetails : string -> option PlaceResult * PlacesServiceStatus
}.

Definition geocode (s : Script) (address : string) (w : World) :=
  (on_geocode s address, (w ++ [CallGeocode address])%list).

Definition nearbySearch (s : Script) (request : PlaceSearchRequest) (w : World) :=
  (on_nearbySearch s request, (w ++ [CallNearbySearch request])%list).

Definition getDetails (s : Script) (placeId : string) (fields : list string)
    (w : World) :=
  (on_getDetails s placeId, (w ++ [CallGetDetails placeId fields])%list).

Definition Date_now (w : World) : Z * World :=
  (Z.of_nat (length w), (w ++ [CallDate])%list).

Definition run (s : Script) (params : SearchParameters) (w : World) :=
  searchBusinesses URL_hostname World (geocode s) (nearbySearch s)
    (getDetails s) Date_now params w.

Definition here : Location := {| lat := 37; lng := -122 |}.

(** A nearby-search stub: only the identifier. *)
Definition stub (pid : string) : PlaceResult :=
  {| place_id := Some pid; pl_name := None; formatted_address := None;
     geometry := None; website := None; url := None;
     formatted_phone_number := None; types := None;
     business_status := None; photos := None |}.

(** A detail record. *)
Definition detail (pid : option string) (site phone status : option string)
    (tags : list string) : PlaceResult :=
  {| place_id := pid; pl_name := Some "Biz";
     formatted_address := Some "1 Main St";
     geometry := Some {| g_location := Some here |};
     website := site; url := None;
     formatted_phone_number := phone; types := Some tags;
     business_status := status; photos := None |}.

(** A classified business with the given status and website type. *)
Definition business (status : string) (wt : WebsiteType) : Business :=
  {| id := Some "a"; name := Some "Biz"; address := Some "1 Main St";
     location := here; category := ["cafe"]; websiteType := wt;
     websiteUrl := None; socialProfiles := no_profiles; phoneNumber := None;
     lastUpdated := 0; searchQuery := "Springfield";
     businessStatus := status;
     improvements := {| needsPhone := true; needsPhotos := true;
                        needsSocialMedia := false;
                        needsWebsite := negb (WebsiteType_eqb wt legitimate) |}
  |}.

Definition params (radius : Q) (wt : option WebsiteType)
    (limit skip : option Z) : SearchParameters :=
  {| p_location := "Springfield"; p_radius := radius;
     p_categories := Some ["cafe"]; p_excludeWebsiteTypes := None;
     p_websiteType := wt; p_limit := limit; p_skip := skip |}.

Definition geocode_ok (_ : string) : option (list GeocoderResult) * GeocoderStatus :=
  (Some [ {| gr_location := here |} ], G_OK).

(** Two tiers for a radius of 3000: the inner one (1500) answers
    ZERO_RESULTS, the outer one finds "a", "b" and "a" again.  The detail
    service fails for "a". *)
Definition script_tiers : Script :=
  {| on_geocode := geocode_ok;
     on_nearbySearch := fun request =>
       if Qle_bool (rq_radius request) 2000 then (None, ZERO_RESULTS)
       else (Some [stub "a"; stub "b"; stub "a"], OK);
     on_getDetails := fun pid =>
       if String.eqb pid "a" then (None, NOT_FOUND)
       else (Some (detail (Some pid) (Some "https://www.facebook.com/somebiz")
                     None None ["cafe"; "establishment"]), OK) |}.

(** Every nearby search is denied. *)
Definition script_denied : Script :=
  {| on_geocode := geocode_ok;
     on_nearbySearch := fun _ => (None, REQUEST_DENIED);
     on_getDetails := fun _ => (None, NOT_FOUND) |}.

(** The geocoder finds nothing. *)
Definition script_nowhere : Script :=
  {| on_geocode := fun _ => (None, G_ZERO_RESULTS);
     on_nearbySearch := fun _ => (Some [stub "a"], OK);
     on_getDetails := fun pid => (Some (detail (Some pid) None None None []), OK) |}.


(** The detail service answers with the identifier it was asked for. *)
Definition script_echo : Script :=
  {| on_geocode := geocode_ok;
     on_nearbySearch := fun _ => (Some [stub "a"; stub "b"; stub "a"], OK);
     on_getDetails := fun pid =>
       (Some (detail (Some pid) None None None ["cafe"]), OK) |}.

End Demo.

(** ** The results list ([app/search/_components/results-list.tsx])

    The parts of the component that compute: the category parameter, the
    badges of a card and the bookkeeping of "Load More".  A handler is
    taken to run to its end before the next one starts (the button is
    disabled while a page loads); parsing of the radius and the cast of
    the website-type query value are left out. *)

Module ResultsList.

Definition ITEMS_PER_PAGE : Z := 20.

(** [category && category !== "all" ? [category] : undefined] *)
Definition categoriesOf (category : option string) : option (list string) :=
  match category with
  | Some c =>
      if (JS.truthy (Some c) && negb (String.eqb c "all"))%bool
      then Some [c]
      else None
  | None => None
  end.

(** A rendered [<Badge>]: its key and variant when given, its class and
    its text. *)
Record Badge := {
  b_key : option string;
  b_variant : option string;
  b_className : string;
  b_label : string
}.

(** [getImprovementBadges]: the badges pushed, in order. *)
Definition getImprovementBadges (business : Business) : list Badge :=
  ((if needsPhone (improvements business)
    then [ {| b_key := Some "phone"; b_variant := Some "outline";
              b_className := "bg-yellow-50 text-yellow-700 border-yellow-200";
              b_label := "Needs Phone" |} ]
    else [])
   ++ (if needsPhotos (improvements business)
       then [ {| b_key := Some "photos"; b_variant := Some "outline";
                 b_className :=
                   "bg-orange-50 text-orange-700 border-orange-200";
                 b_label := "Needs Photos" |} ]
       else [])
   ++ (if needsWebsite (improvements business)
       then [ {| b_key := Some "website"; b_variant := Some "outline";
                 b_className :=
                   "bg-purple-50 text-purple-700 border-purple-200";
                 b_label := "Needs Website" |} ]
       else []))%list.

(** The table [variants] of [WebsiteTypeBadge]: class and label. *)
Definition variants (type : WebsiteType) : string * string :=
  match type with
  | none => ("bg-destructive/10 text-destructive", "No Website")
  | facebook => ("bg-blue-100 text-blue-800", "Facebook Only")
  | yelp => ("bg-red-100 text-red-800", "Yelp Only")
  | other => ("bg-orange-100 text-orange-800", "Other Platform")
  | legitimate => ("bg-green-100 text-green-800", "Has Website")
  end.

(** [WebsiteTypeBadge]: nothing for [legitimate] and [none]. *)
Definition WebsiteTypeBadge (type : WebsiteType) : option Badge :=
  if (WebsiteType_eqb type legitimate || WebsiteType_eqb type none)%bool
  then None
  else Some {| b_key := None; b_variant := None;
               b_className := fst (variants type);
               b_label := snd (variants type) |}.

(** The state the component keeps between renders. *)
Record State := {
  page : Z;
  allBusinesses : list Business;
  results : option SearchResult
}.

(** The effect of a finished first fetch: [setPage(1)],
    [setResults(searchResult)], [setAllBusinesses(searchResult.businesses)]. *)
Definition afterFetch (searchResult : SearchResult) : State :=
  {| page := 1;
     allBusinesses := businesses searchResult;
     results := Some searchResult |}.

(** [const offset = page * ITEMS_PER_PAGE] *)
Definition offset (st : State) : Z := page st * ITEMS_PER_PAGE.

(** The effect of a finished [handleLoadMore]. *)
Definition afterLoadMore (st : State) (searchResult : SearchResult) : State :=
  let nextPage := page st + 1 in
  let updatedBusinesses :=
    (allBusinesses st ++ businesses searchResult)%list in
  {| page := nextPage;
     allBusinesses := updatedBusinesses;
     results :=
       Some {| businesses := updatedBusinesses;
               totalCount := totalCount searchResult;
               hasMore :=
                 (hasMore searchResult
                  && (Z.of_nat (length (businesses searchResult)) >? 0))%bool
            |} |}.

(** The state after the first fetch and [n] uses of "Load More", when
    every search finds the same map and the same filtered list. *)
Fixpoint loaded (allPlaces : PlaceMap.t) (filtered : list Business) (n : nat)
  : State :=
  match n with
  | O => afterFetch (paginate allPlaces filtered 0 ITEMS_PER_PAGE)
  | S n' =>
      let st := loaded allPlaces filtered n' in
      afterLoadMore st (paginate allPlaces filtered (offset st) ITEMS_PER_PAGE)
  end.

End ResultsList.

(** ** The older service in full ([services/maps.ts])

    The older [Business] has no improvement flags, and the older
    [SearchParameters] is the current one less [websiteType] and [skip],
    which the older service does not read. *)

Module LegacyService.

Record Business := {
  l_id : option string;
  l_name : option string;
  l_address : option string;
  l_location : Location;
  l_category : list string;
  l_websiteType : WebsiteType;
  l_websiteUrl : option string;
  l_socialProfiles : SocialProfiles;
  l_phoneNumber : option string;
  l_lastUpdated : Z;
  l_searchQuery : string;
  l_businessStatus : string
}.

Record SearchResult := {
  l_businesses : list Business;
  l_totalCount : Z;
  l_hasMore : bool
}.

(** The [fields] asked of the detail service. *)
Definition detailFields : list string :=
  [ "place_id"; "name"; "business_status"; "formatted_address";
    "formatted_phone_number"; "geometry"; "website"; "url"; "types" ].

(** [const placeDetails = { place_id: result.place_id, ... }]: the copy
    the callback resolves with; it has no photos. *)
Definition placeDetails (result : PlaceResult) : PlaceResult :=
  {| place_id := place_id result;
     pl_name := pl_name result;
     formatted_address := formatted_address result;
     geometry := geometry result;
     website := website result;
     url := url result;
     formatted_phone_number := formatted_phone_number result;
     types := types result;
     business_status := business_status result;
     photos := None |}.

(** The callback of [.filter(...)]. *)
Definition keep (excludeWebsiteTypes : option (list WebsiteType))
    (business : Business) : bool :=
  if String.eqb (l_businessStatus business) "PERMANENTLY_CLOSED" then false
  else
    match excludeWebsiteTypes with
    | Some (t :: ts) =>
        existsb (WebsiteType_eqb (l_websiteType business)) (t :: ts)
    | _ => negb (WebsiteType_eqb (l_websiteType business) legitimate)
    end.

(** [Promise.all]: the values in order when every promise resolved, the
    reason of a rejected one otherwise.  Callbacks are taken to arrive in
    the order of the calls, so the reason is that of the first rejected
    promise of the array. *)
Fixpoint Promise_all {A : Type} (settled : list (Exn + A)) : Exn + list A :=
  match settled with
  | [] => inr []
  | inl e :: _ => inl e
  | inr a :: rest =>
      match Promise_all rest with
      | inl e => inl e
      | inr l => inr (a :: l)
      end
  end.

Section Service.
Variable URL_hostname : string -> option string.
Variable World : Type.
Variable geocode :
  string -> World -> (option (list GeocoderResult) * GeocoderStatus) * World.
Variable nearbySearch :
  PlaceSearchRequest -> World ->
  (option (list PlaceResult) * PlacesServiceStatus) * World.
(** [placeId] is [place.place_id!], absent when the stub has none. *)
Variable getDetails :
  option string -> list string -> World ->
  (option PlaceResult * PlacesServiceStatus) * World.
Variable Date_now : World -> Z * World.

Local Open Scope async_scope.

Definition mapPlaceToBusiness (place : PlaceResult) (query : string)
  : Promise World Business :=
  let website := website place in
  let websiteType := determineWebsiteType URL_hostname website in
  let businessStatus := statusOf place in
  match geometry place with
  | None => Async.throw (TypeError "place.geometry")
  | Some g =>
      match g_location g with
      | None => Async.throw (TypeError "place.geometry.location")
      | Some loc =>
          let socialProfiles :=
            extractSocialProfiles URL_hostname
              (match url place with
               | Some u => if JS.truthy (Some u) then [u] else []
               | None => []
               end) in
          now <- Async.call Date_now ;;
          Async.ret
            {| l_id := place_id place;
               l_name := pl_name place;
               l_address := formatted_address place;
               l_location := {| lat := lat loc; lng := lng loc |};
               l_category :=
                 match types place with Some ts => ts | None => [] end;
               l_websiteType := websiteType;
               l_websiteUrl := website;
               l_socialProfiles := socialProfiles;
               l_phoneNumber := formatted_phone_number place;
               l_lastUpdated := now;
               l_searchQuery := query;
               l_businessStatus := businessStatus |}
      end
  end.

Definition getDetailsPromise (placeId : option string)
  : Promise World PlaceResult :=
  r <- Async.call (getDetails placeId detailFields) ;;
  match r with
  | (Some result, OK) => Async.ret (placeDetails result)
  | (_, status) =>
      Async.throw
        (Error ("Place details failed: "
                ++ PlacesServiceStatus_to_string status))
  end.

(** [analyzeBusiness(placeId)] *)
Definition analyzeBusiness (placeId : string) : Promise World Business :=
  place <- getDetailsPromise (Some placeId) ;;
  mapPlaceToBusiness place "".

(** The one nearby search: anything but OK with a list rejects. *)
Definition nearbySearchPromise (request : PlaceSearchRequest)
  : Promise World (list PlaceResult) :=
  r <- Async.call (nearbySearch request) ;;
  match r with
  | (Some results, OK) => Async.ret results
  | (_, status) =>
      Async.throw
        (Error ("Places search failed: "
                ++ PlacesServiceStatus_to_string status))
  end.

(** [searchResult.map((place) => new Promise(...))]: every detail call is
    issued, whatever the others answer. *)
Fixpoint detailCalls (places : list PlaceResult) (w : World)
  : list (Exn + PlaceResult) * World :=
  match places with
  | [] => ([], w)
  | place :: rest =>
      let (r, w1) := getDetailsPromise (place_id place) w in
      let (rs, w2) := detailCalls rest w1 in
      (r :: rs, w2)
  end.

Definition allDetails (places : list PlaceResult)
  : Promise World (list PlaceResult) :=
  fun w =>
    let (settled, w') := detailCalls places w in
    (Promise_all settled, w').

Definition searchBusinesses (params : SearchParameters)
  : Promise World SearchResult :=
  let limit := limitOf params in
  geocodeResult <- geocodePromise World geocode (p_location params) ;;
  match geocodeResult with
  | [] => Async.throw (TypeError "geocodeResult[0]")
  | first :: _ =>
      let searchLocation := gr_location first in
      searchResult <-
        nearbySearchPromise
          {| rq_location := searchLocation;
             rq_radius := p_radius params;
             rq_type :=
               match p_categories params with
               | Some (c :: _) => Some c
               | _ => None
               end;
             rq_keyword := None |} ;;
      detailedPlaces <- allDetails searchResult ;;
      mapped <- Async.mapM
                  (fun place => mapPlaceToBusiness place (p_location params))
                  detailedPlaces ;;
      let businesses :=
        JS.slice (filter (keep (p_excludeWebsiteTypes params)) mapped)
          0 limit in
      Async.ret {| l_businesses := businesses;
                   l_totalCount := Z.of_nat (length businesses);
                   l_hasMore := false |}
  end.

End Service.
End LegacyService.

(** A place the classifier cannot map: no geometry, or no location. *)
Definition Unlocated (place : PlaceResult) : Prop :=
  geometry place = None
  \/ exists g, geometry place = Some g /\ g_location g = None.

(** ** Vocabulary for the social profiles *)

(** The slot of [extractSocialProfiles] an address goes to, if it parses. *)
Inductive Slot : Set := SlotFacebook | SlotYelp | SlotInstagram | SlotOther.

Definition Slot_eqb (a b : Slot) : bool :=
  match a, b with
  | SlotFacebook, SlotFacebook | SlotYelp, SlotYelp
  | SlotInstagram, SlotInstagram | SlotOther, SlotOther => true
  | _, _ => false
  end.

Definition slotOf (URL_hostname : string -> option string) (u : string)
  : option Slot :=
  match URL_hostname u with
  | None => None
  | Some hostname =>
      let domain := JS.toLowerCase hostname in
      if JS.some (fun fb => JS.includes domain fb) FACEBOOK_DOMAINS
      then Some SlotFacebook
      else if JS.some (fun yelp => JS.includes domain yelp) YELP_DOMAINS
      then Some SlotYelp
      else if JS.includes domain "instagram.com" then Some SlotInstagram
      else Some SlotOther
  end.

Definition inSlot (URL_hostname : string -> option string) (s : Slot)
    (u : string) : bool :=
  match slotOf URL_hostname u with
  | Some s' => Slot_eqb s s'
  | None => false
  end.

(** The step of the [reduce] of [extractSocialProfiles], by slot. *)
Definition profileStep (URL_hostname : string -> option string)
    (profiles : SocialProfiles) (u : string) : SocialProfiles :=
  match slotOf URL_hostname u with
  | None => profiles
  | Some SlotFacebook =>
      {| sp_facebook := Some u; sp_yelp := sp_yelp profiles;
         sp_instagram := sp_instagram profiles; sp_other := sp_other profiles |}
  | Some SlotYelp =>
      {| sp_facebook := sp_facebook profiles; sp_yelp := Some u;
         sp_instagram := sp_instagram profiles; sp_other := sp_other profiles |}
  | Some SlotInstagram =>
      {| sp_facebook := sp_facebook profiles; sp_yelp := sp_yelp profiles;
         sp_instagram := Some u; sp_other := sp_other profiles |}
  | Some SlotOther =>
      {| sp_facebook := sp_facebook profiles; sp_yelp := sp_yelp profiles;
         sp_instagram := sp_instagram profiles;
         sp_other :=
           Some ((match sp_other profiles with
                  | Some o => o
                  | None => []
                  end) ++ [u])%list |}
  end.

(** The last element satisfying [p]. *)
Definition findLast {A : Type} (p : A -> bool) (xs : list A) : option A :=
  find p (rev xs).

(** ** More scripted worlds *)

Module Demo2.

(** A detail record without a geometry. *)
Definition detail_nowhere (pid : string) : PlaceResult :=
  {| place_id := Some pid; pl_name := Some "Biz";
     formatted_address := Some "1 Main St";
     geometry := None; website := None; url := None;
     formatted_phone_number := None; types := Some ["cafe"];
     business_status := None; photos := None |}.

(** The detail service answers for "b" with a record that has no
    geometry. *)
Definition script_no_geometry : Demo.Script :=
  {| Demo.on_geocode := Demo.geocode_ok;
     Demo.on_nearbySearch := fun _ =>
       (Some [Demo.stub "a"; Demo.stub "b"; Demo.stub "c"], OK);
     Demo.on_getDetails := fun pid =>
       if String.eqb pid "b" then (Some (detail_nowhere pid), OK)
       else (Some (Demo.detail (Some pid) None None None ["cafe"]), OK) |}.

(** The geocoder answers OK with an empty list. *)
Definition script_empty_geocode : Demo.Script :=
  {| Demo.on_geocode := fun _ => (Some [], G_OK);
     Demo.on_nearbySearch := fun _ => (Some [Demo.stub "a"], OK);
     Demo.on_getDetails := fun pid =>
       (Some (Demo.detail (Some pid) None None None ["cafe"]), OK) |}.

(** Five places, all detailed. *)
Definition script_five : Demo.Script :=
  {| Demo.on_geocode := Demo.geocode_ok;
     Demo.on_nearbySearch := fun _ =>
       (Some [Demo.stub "a"; Demo.stub "b"; Demo.stub "c"; Demo.stub "d";
              Demo.stub "e"], OK);
     Demo.on_getDetails := fun pid =>
       (Some (Demo.detail (Some pid) None None None ["cafe"]), OK) |}.

(** The older detail service: asked with an optional identifier. *)
Definition legacy_getDetails (s : Demo.Script) (placeId : option string)
    (fields : list string) (w : Demo.World) :=
  match placeId with
  | Some pid =>
      (Demo.on_getDetails s pid,
       (w ++ [Demo.CallGetDetails pid fields])%list)
  | None => ((None, INVALID_REQUEST), (w ++ [Demo.CallGetDetails "" fields])%list)
  end.

Definition legacy_run (s : Demo.Script) (params : SearchParameters)
    (w : Demo.World) :=
  LegacyService.searchBusinesses Demo.URL_hostname Demo.World
    (Demo.geocode s) (Demo.nearbySearch s) (legacy_getDetails s)
    Demo.Date_now params w.

End Demo2.

(** * Properties *)

(** ** Strings and arrays *)

Lemma prefix_iff (t s : string) :
  String.prefix t s = true <-> exists post, s = t ++ post.
Proof.
  revert s; induction t as [|c t IH]; intros s; simpl.
  - split; [intros _; now exists s | intros _; now destruct s].
  - destruct s as [|d s].
    + split; [discriminate | intros [post H]; discriminate].
    + simpl. destruct (Ascii.ascii_dec c d) as [->|Hne].
      * rewrite IH. split; intros [post H]; exists post.
        -- now rewrite H.
        -- simpl in H. now injection H.
      * split; [discriminate | intros [post H]; injection H; congruence].
Qed.

Lemma includes_unfold (s t : string) :
  JS.includes s t
  = if String.prefix t s then true
    else match s with
         | EmptyString => false
         | String _ s' => JS.includes s' t
         end.
Proof. now destruct s. Qed.

Lemma includes_iff (s t : string) :
  JS.includes s t = true <-> Occurs t s.
Proof.
  unfold Occurs. induction s as [|c s IH]; rewrite includes_unfold.
  - destruct (String.prefix t "") eqn:E.
    + split; [intros _|reflexivity].
      apply prefix_iff in E as [post E]. now exists "", post.
    + split; [discriminate|]. intros (pre & post & H).
      destruct pre; [|discriminate]. simpl in H.
      assert (String.prefix t "" = true) by (apply prefix_iff; eauto).
      congruence.
  - destruct (String.prefix t (String c s)) eqn:E.
    + split; [intros _|reflexivity].
      apply prefix_iff in E as [post E]. now exists "", post.
    + rewrite IH. split.
      * intros (pre & post & ->). now exists (String c pre), post.
      * intros (pre & post & H). destruct pre as [|d pre].
        -- simpl in H.
           assert (String.prefix t (String c s) = true)
             by (apply prefix_iff; eauto).
           congruence.
        -- simpl in H. injection H as _ ->. now exists pre, post.
Qed.

Lemma some_includes_iff (domains : list string) (s : string) :
  JS.some (fun d => JS.includes s d) domains = true
  <-> exists d, In d domains /\ Occurs d s.
Proof.
  unfold JS.some. rewrite existsb_exists.
  split; intros (d & Hin & H); exists d; split; auto; now apply includes_iff.
Qed.

Lemma array_includes_iff (xs : list string) (x : string) :
  JS.array_includes xs x = true <-> In x xs.
Proof.
  unfold JS.array_includes. rewrite existsb_exists. split.
  - intros (y & Hin & E). apply String.eqb_eq in E. now subst.
  - intros Hin. exists x. split; [assumption | apply String.eqb_refl].
Qed.

Lemma WebsiteType_eqb_eq (a b : WebsiteType) :
  WebsiteType_eqb a b = true <-> a = b.
Proof. destruct a, b; simpl; split; congruence. Qed.

Lemma slice_nonneg {A} (xs : list A) (start end_ : Z) :
  0 <= start -> start <= end_ ->
  JS.slice xs start end_
  = firstn (Z.to_nat (end_ - start)) (skipn (Z.to_nat start) xs).
Proof.
  intros Hs He. unfold JS.slice.
  destruct (Z.ltb_spec start 0); [lia|].
  destruct (Z.ltb_spec end_ 0); [lia|].
  destruct (Z.le_gt_cases (Z.of_nat (length xs)) start) as [Hout|Hin].
  - rewrite (skipn_all2 xs (n := Z.to_nat start)) by lia.
    rewrite Z.min_r by lia. rewrite skipn_all2 by lia.
    now rewrite !firstn_nil.
  - rewrite (Z.min_l start) by lia.
    destruct (Z.le_gt_cases end_ (Z.of_nat (length xs))) as [Hle|Hgt].
    + now rewrite Z.min_l by lia.
    + rewrite Z.min_r by lia.
      rewrite !firstn_all2; trivial; rewrite length_skipn; lia.
Qed.

(** ** Classifier *)

Section ClassifierFacts.
Variable URL_hostname : string -> option string.

(** On a non-empty address that parses, the answer is the cascade of
    table lookups on the lower-cased hostname. *)
Lemma determineWebsiteType_parsed (c : ascii) (u h : string) :
  URL_hostname (String c u) = Some h ->
  determineWebsiteType URL_hostname (Some (String c u))
  = let domain := JS.toLowerCase h in
    if JS.some (fun fb => JS.includes domain fb) FACEBOOK_DOMAINS then facebook
    else if JS.some (fun y => JS.includes domain y) YELP_DOMAINS then yelp
    else if JS.some (fun p => JS.includes domain p) PLATFORM_DOMAINS then other
    else legitimate.
Proof. intros H. unfold determineWebsiteType. simpl. now rewrite H. Qed.

Lemma determineWebsiteType_falsy (url : option string) :
  JS.truthy url = false -> determineWebsiteType URL_hostname url = none.
Proof. intros H. unfold determineWebsiteType. now rewrite H. Qed.

Lemma determineWebsiteType_unparsed (u : string) :
  URL_hostname u = None -> determineWebsiteType URL_hostname (Some u) = none.
Proof.
  intros H. unfold determineWebsiteType.
  destruct (negb (JS.truthy (Some u))); [reflexivity | now rewrite H].
Qed.

Lemma some_false_not_any (domains : list string) (s : string) :
  ~ OccursAny domains s ->
  JS.some (fun d => JS.includes s d) domains = false.
Proof.
  intros H. apply not_true_is_false. intros E.
  now apply some_includes_iff in E.
Qed.

Lemma some_true_any (domains : list string) (s : string) :
  OccursAny domains s ->
  JS.some (fun d => JS.includes s d) domains = true.
Proof. intros H. now apply some_includes_iff. Qed.

(** C1. [determineWebsiteType]: an absent address gives [none]; an
    address that does not parse gives [none]; an address that parses is
    classified by its lower-cased hostname: [facebook] when a Facebook
    domain occurs in it, else [yelp] when a Yelp domain occurs in it, else
    [other] when a platform domain occurs in it, and [legitimate]
    otherwise.  The URL parser rejects the empty address. *)
Theorem determineWebsiteType_spec :
  URL_hostname "" = None ->
  determineWebsiteType URL_hostname None = none
  /\ (forall u, URL_hostname u = None -> determineWebsiteType URL_hostname (Some u) = none)
  /\ (forall u h,
        URL_hostname u = Some h ->
        let domain := JS.toLowerCase h in
        (OccursAny FACEBOOK_DOMAINS domain -> determineWebsiteType URL_hostname (Some u) = facebook)
        /\ (~ OccursAny FACEBOOK_DOMAINS domain ->
            OccursAny YELP_DOMAINS domain -> determineWebsiteType URL_hostname (Some u) = yelp)
        /\ (~ OccursAny FACEBOOK_DOMAINS domain ->
            ~ OccursAny YELP_DOMAINS domain ->
            OccursAny PLATFORM_DOMAINS domain -> determineWebsiteType URL_hostname (Some u) = other)
        /\ (~ OccursAny FACEBOOK_DOMAINS domain ->
            ~ OccursAny YELP_DOMAINS domain ->
            ~ OccursAny PLATFORM_DOMAINS domain ->
            determineWebsiteType URL_hostname (Some u) = legitimate)).
Proof.
  intros Hempty. split; [reflexivity|].
  split; [apply determineWebsiteType_unparsed|].
  intros u h Hu domain.
  destruct u as [|c u]; [congruence|].
  rewrite (determineWebsiteType_parsed _ _ _ Hu). fold domain. cbv zeta.
  repeat split.
  - intros Hfb. now rewrite (some_true_any _ _ Hfb).
  - intros Hfb Hy.
    now rewrite (some_false_not_any _ _ Hfb), (some_true_any _ _ Hy).
  - intros Hfb Hy Hp.
    now rewrite (some_false_not_any _ _ Hfb), (some_false_not_any _ _ Hy),
      (some_true_any _ _ Hp).
  - intros Hfb Hy Hp.
    now rewrite (some_false_not_any _ _ Hfb), (some_false_not_any _ _ Hy),
      (some_false_not_any _ _ Hp).
Qed.

(** The answer [none] is given only to an absent, empty or unparsable
    address, and the three tables are tried in this order. *)
Lemma determineWebsiteType_none_only (url : option string) :
  determineWebsiteType URL_hostname url = none ->
  JS.truthy url = false \/ exists u, url = Some u /\ URL_hostname u = None.
Proof.
  destruct url as [[|c u]|]; [now left| |now left].
  intros H. right. exists (String c u). split; [reflexivity|].
  destruct (URL_hostname (String c u)) as [h|] eqn:E; [|reflexivity].
  rewrite (determineWebsiteType_parsed _ _ _ E) in H. cbv zeta in H.
  repeat match type of H with
         | (if ?b then _ else _) = _ => destruct b; try discriminate
         end.
Qed.

End ClassifierFacts.

(** Every Facebook and Yelp domain is also in the platform table, so
    [other] is reached by the remaining eighteen entries only. *)
Lemma platform_table_covers (d : string) :
  In d FACEBOOK_DOMAINS \/ In d YELP_DOMAINS -> In d PLATFORM_DOMAINS.
Proof.
  unfold FACEBOOK_DOMAINS, YELP_DOMAINS, PLATFORM_DOMAINS. simpl.
  intuition (subst; auto 25).
Qed.

Lemma determineWebsiteType_spec_witness :
  Demo.URL_hostname "" = None
  /\ determineWebsiteType Demo.URL_hostname
       (Some "https://www.facebook.com/somebiz") = facebook.
Proof.
  split; [reflexivity|].
  destruct (determineWebsiteType_spec Demo.URL_hostname eq_refl)
    as (_ & _ & H).
  apply (H "https://www.facebook.com/somebiz" "www.facebook.com" eq_refl).
  exists "facebook.com". split; [now left|]. now exists "www.", "".
Defined.

Example determineWebsiteType_yelp :
  determineWebsiteType Demo.URL_hostname (Some "https://m.yelp.com/biz/x") = yelp.
Proof. reflexivity. Qed.

Example determineWebsiteType_other :
  determineWebsiteType Demo.URL_hostname (Some "http://mybiz.wix.com") = other.
Proof. reflexivity. Qed.

Example determineWebsiteType_legitimate :
  determineWebsiteType Demo.URL_hostname (Some "https://joes-diner.example")
  = legitimate.
Proof. reflexivity. Qed.

Example determineWebsiteType_malformed :
  determineWebsiteType Demo.URL_hostname (Some "not a url") = none.
Proof. reflexivity. Qed.

(** ** Building a business record *)

Section BusinessFacts.
Variable URL_hostname : string -> option string.
Variable World : Type.
Variable Date_now : World -> Z * World.

(** What [mapPlaceToBusiness] returns when it returns. *)
Lemma mapPlaceToBusiness_inv (place : PlaceResult) (query : string)
    (w w' : World) (b : Business) :
  mapPlaceToBusiness URL_hostname World Date_now place query w = (inr b, w') ->
  exists g loc,
    geometry place = Some g /\ g_location g = Some loc
    /\ w' = snd (Date_now w)
    /\ lastUpdated b = fst (Date_now w)
    /\ websiteType b = determineWebsiteType URL_hostname (website place)
    /\ category b = filterCategories (types place)
    /\ businessStatus b = statusOf place
    /\ improvements b
       = computeImprovements place
           (determineWebsiteType URL_hostname (website place))
    /\ id b = place_id place
    /\ searchQuery b = query.
Proof.
  unfold mapPlaceToBusiness, Async.bind, Async.call, Async.ret, Async.throw.
  destruct (geometry place) as [g|] eqn:Hg; [|discriminate].
  destruct (g_location g) as [loc|] eqn:Hl; [|discriminate].
  destruct (Date_now w) as [now w1]. intros H. injection H as <- <-.
  exists g, loc. simpl. repeat split; assumption || reflexivity.
Qed.

(** It returns exactly when the place has a geometry with a location. *)
Lemma mapPlaceToBusiness_returns (place : PlaceResult) (query : string)
    (w : World) (g : PlaceGeometry) (loc : Location) :
  geometry place = Some g -> g_location g = Some loc ->
  exists b,
    mapPlaceToBusiness URL_hostname World Date_now place query w
    = (inr b, snd (Date_now w)).
Proof.
  intros Hg Hl.
  unfold mapPlaceToBusiness, Async.bind, Async.call, Async.ret, Async.throw.
  rewrite Hg, Hl. destruct (Date_now w) as [now w1]. simpl. eauto.
Qed.

Lemma mapPlaceToBusiness_throws (place : PlaceResult) (query : string)
    (w : World) :
  (geometry place = None
   \/ exists g, geometry place = Some g /\ g_location g = None) ->
  exists e,
    mapPlaceToBusiness URL_hostname World Date_now place query w = (inl e, w).
Proof.
  unfold mapPlaceToBusiness, Async.throw.
  intros [Hg | (g & Hg & Hl)]; rewrite Hg; [|rewrite Hl]; eauto.
Qed.

End BusinessFacts.

Lemma truthy_false_iff (s : option string) :
  JS.truthy s = false <-> s = None \/ s = Some "".
Proof.
  destruct s as [[|c s]|]; simpl; split; intros H; auto; try discriminate.
  destruct H; discriminate.
Qed.

Lemma needsPhone_iff (place : PlaceResult) (wt : WebsiteType) :
  needsPhone (computeImprovements place wt) = true
  <-> formatted_phone_number place = None
      \/ formatted_phone_number place = Some "".
Proof. simpl. rewrite negb_true_iff. apply truthy_false_iff. Qed.

Lemma needsPhotos_iff (place : PlaceResult) (wt : WebsiteType) :
  needsPhotos (computeImprovements place wt) = true
  <-> photos place = None
      \/ exists ps, photos place = Some ps /\ (length ps < 3)%nat.
Proof.
  simpl. destruct (photos place) as [ps|].
  - rewrite Z.ltb_lt. split.
    + intros H. right. exists ps. split; [reflexivity | lia].
    + intros [H | (ps' & E & H)]; [discriminate|]. injection E as ->. lia.
  - split; auto.
Qed.

Lemma needsWebsite_iff (place : PlaceResult) (wt : WebsiteType) :
  needsWebsite (computeImprovements place wt) = true <-> wt <> legitimate.
Proof. destruct wt; simpl; split; congruence. Qed.

(** The place of the counterexample to C7: a phone field that is present
    and empty. *)
Lemma needsPhone_on_empty_phone :
  let place := Demo.detail (Some "a") None (Some "") None [] in
  formatted_phone_number place <> None
  /\ needsPhone (computeImprovements place none) = true.
Proof. split; [discriminate | reflexivity]. Qed.

(** C7, as stated, fails: [needsPhone] is not equivalent to the absence
    of the phone field, because an empty phone string also sets it. *)
Lemma needsPhone_not_iff_absent :
  ~ (forall place wt,
        needsPhone (computeImprovements place wt) = true
        <-> formatted_phone_number place = None).
Proof.
  intros H.
  destruct (H (Demo.detail (Some "a") None (Some "") None []) none) as [H1 _].
  specialize (H1 eq_refl). discriminate.
Qed.

(** C7, amended.  For every raw place: [needsPhone] is set exactly when
    the phone field is absent or the empty string; [needsPhotos] exactly
    when the photo list is absent or has fewer than three entries;
    [needsSocialMedia] is never set; [needsWebsite] exactly when the
    computed website type is not [legitimate].  Every business record built
    from the place carries these flags, so its website type is
    [legitimate] if and only if its [needsWebsite] is false. *)
Theorem improvements_spec :
  forall (URL_hostname : string -> option string) (World : Type)
         (Date_now : World -> Z * World) (place : PlaceResult),
    let wt := determineWebsiteType URL_hostname (website place) in
    let imp := computeImprovements place wt in
    (needsPhone imp = true
     <-> formatted_phone_number place = None
         \/ formatted_phone_number place = Some "")
    /\ (needsPhotos imp = true
        <-> photos place = None
            \/ exists ps, photos place = Some ps /\ (length ps < 3)%nat)
    /\ needsSocialMedia imp = false
    /\ (needsWebsite imp = true <-> wt <> legitimate)
    /\ (forall query w b w',
          mapPlaceToBusiness URL_hostname World Date_now place query w
          = (inr b, w') ->
          improvements b = imp
          /\ websiteType b = wt
          /\ (websiteType b = legitimate
              <-> needsWebsite (improvements b) = false)).
Proof.
  intros URL_hostname World Date_now place wt imp.
  split; [apply needsPhone_iff|].
  split; [apply needsPhotos_iff|].
  split; [reflexivity|].
  split; [apply needsWebsite_iff|].
  intros query w b w' H.
  apply mapPlaceToBusiness_inv in H
    as (g & loc & _ & _ & _ & _ & Hwt & _ & _ & Himp & _).
  fold wt in Hwt, Himp. fold imp in Himp.
  split; [assumption|]. split; [assumption|].
  rewrite Himp, Hwt. subst imp. destruct wt; simpl; split; congruence.
Qed.

Lemma improvements_spec_witness :
  exists b w',
    mapPlaceToBusiness Demo.URL_hostname Demo.World Demo.Date_now
      (Demo.detail (Some "a") (Some "https://joes-diner.example") None None [])
      "Springfield" [] = (inr b, w')
    /\ websiteType b = legitimate
    /\ needsWebsite (improvements b) = false
    /\ needsPhone (improvements b) = true.
Proof.
  pose (place :=
          Demo.detail (Some "a") (Some "https://joes-diner.example") None None []).
  destruct (mapPlaceToBusiness_returns Demo.URL_hostname Demo.World
              Demo.Date_now place "Springfield" []
              {| g_location := Some Demo.here |} Demo.here eq_refl eq_refl)
    as [b Hb].
  exists b, (snd (Demo.Date_now [])). split; [exact Hb|].
  destruct (improvements_spec Demo.URL_hostname Demo.World Demo.Date_now place)
    as (Hphone & _ & _ & _ & Hb').
  destruct (Hb' _ _ _ _ Hb) as (Himp & Hwt & Hiff).
  assert (Hl : websiteType b = legitimate) by (rewrite Hwt; reflexivity).
  split; [exact Hl|]. split; [now apply Hiff|].
  rewrite Himp. apply Hphone. now left.
Defined.

(** ** Category filtering *)

Lemma filter_Subseq {A} (p : A -> bool) (xs : list A) :
  Subseq (filter p xs) xs.
Proof.
  induction xs as [|x xs IH]; simpl; [constructor|].
  destruct (p x); now constructor.
Qed.

Lemma Subseq_In {A} (l1 l2 : list A) (x : A) :
  Subseq l1 l2 -> In x l1 -> In x l2.
Proof.
  induction 1 as [|y l1 l2 _ IH|y l1 l2 _ IH]; simpl; intuition.
Qed.

Lemma Subseq_length {A} (l1 l2 : list A) :
  Subseq l1 l2 -> (length l1 <= length l2)%nat.
Proof. induction 1; simpl; lia. Qed.

Lemma filter_count_occ (p : string -> bool) (xs : list string) (t : string) :
  p t = true ->
  count_occ string_dec (filter p xs) t = count_occ string_dec xs t.
Proof.
  intros Ht. induction xs as [|x xs IH]; simpl; [reflexivity|].
  destruct (p x) eqn:Hx; simpl; destruct (string_dec x t) as [->|Hne];
    congruence.
Qed.

Lemma filterCategories_In (raw : option (list string)) (t : string) :
  In t (filterCategories raw)
  <-> (exists ts, raw = Some ts /\ In t ts) /\ ~ In t genericCategories.
Proof.
  unfold filterCategories. destruct raw as [ts|].
  - rewrite filter_In. cbv beta.
    rewrite negb_true_iff, <- not_true_iff_false, array_includes_iff.
    split.
    + intros [H1 H2]. split; [exists ts; auto | assumption].
    + intros [(ts' & E & H1) H2]. injection E as ->. auto.
  - split; [contradiction | intros [(ts & E & _) _]; discriminate].
Qed.

(** C8.  The category filter returns no tag of the denylist, returns the
    surviving tags in their input order, and keeps every repetition of a
    surviving tag; the category list of every business record built from a
    place is the filtered list of the place's tags, so it contains no
    denylisted tag. *)
Theorem filterCategories_spec :
  forall (raw : option (list string)),
    let input := match raw with Some ts => ts | None => [] end in
    let output := filterCategories raw in
    (forall t, In t output -> ~ In t genericCategories)
    /\ Subseq output input
    /\ (forall t, ~ In t genericCategories ->
          count_occ string_dec output t = count_occ string_dec input t)
    /\ (forall (URL_hostname : string -> option string) (World : Type)
               (Date_now : World -> Z * World) place query w b w',
          types place = raw ->
          mapPlaceToBusiness URL_hostname World Date_now place query w
          = (inr b, w') ->
          category b = output
          /\ forall t, In t (category b) -> ~ In t genericCategories).
Proof.
  intros raw input output.
  assert (Hno : forall t, In t output -> ~ In t genericCategories)
    by (intros t H; now apply filterCategories_In in H).
  split; [exact Hno|]. split; [|split].
  - subst input output. destruct raw as [ts|];
      [apply filter_Subseq | constructor].
  - intros t Ht. subst input output. destruct raw as [ts|];
      [|reflexivity].
    unfold filterCategories. apply filter_count_occ.
    apply negb_true_iff, not_true_iff_false.
    now rewrite array_includes_iff.
  - intros URL_hostname World Date_now place query w b w' Hraw H.
    apply mapPlaceToBusiness_inv in H
      as (g & loc & _ & _ & _ & _ & _ & Hcat & _).
    rewrite Hraw in Hcat. fold output in Hcat.
    split; [assumption|]. now rewrite Hcat.
Qed.

Lemma filterCategories_spec_witness :
  filterCategories
    (Some ["cafe"; "point_of_interest"; "food"; "cafe"; "establishment"])
  = ["cafe"; "food"; "cafe"]
  /\ count_occ string_dec
       (filterCategories
          (Some ["cafe"; "point_of_interest"; "food"; "cafe"; "establishment"]))
       "cafe" = 2%nat
  /\ ~ In "establishment"
       (filterCategories
          (Some ["cafe"; "point_of_interest"; "food"; "cafe"; "establishment"])).
Proof.
  pose proof (filterCategories_spec
                (Some ["cafe"; "point_of_interest"; "food"; "cafe";
                       "establishment"])) as (Hno & _ & Hcount & _).
  split; [reflexivity|]. split.
  - rewrite Hcount; [reflexivity|].
    intros H. apply array_includes_iff in H. discriminate H.
  - intros H. apply (Hno _ H). apply array_includes_iff. reflexivity.
Defined.

(** ** Determinism of the classification *)



(** The two records of the run above differ in their timestamp only. *)
Example mapPlaceToBusiness_timestamps :
  let place := Demo.detail (Some "a") None None None [] in
  exists b1 b2 w1 w2,
    mapPlaceToBusiness Demo.URL_hostname Demo.World Demo.Date_now place
      "Springfield" [] = (inr b1, w1)
    /\ mapPlaceToBusiness Demo.URL_hostname Demo.World Demo.Date_now place
         "Springfield" [Demo.CallDate] = (inr b2, w2)
    /\ lastUpdated b1 = 0 /\ lastUpdated b2 = 1.
Proof. simpl. do 4 eexists. repeat split. Qed.

(** ** The deduplication map *)

Lemma has_iff (m : PlaceMap.t) (k : string) :
  PlaceMap.has m k = true <-> In k (PlaceMap.keys m).
Proof.
  unfold PlaceMap.has, PlaceMap.keys. rewrite existsb_exists, in_map_iff.
  split.
  - intros (e & Hin & E). apply String.eqb_eq in E. exists e. auto.
  - intros (e & E & Hin). exists e. split; [assumption|].
    subst k. apply String.eqb_refl.
Qed.

Lemma set_fresh (m : PlaceMap.t) (k : string) (v : PlaceResult) :
  PlaceMap.has m k = false -> PlaceMap.set m k v = (m ++ [(k, v)])%list.
Proof.
  induction m as [|[k' v'] m IH]; simpl; [reflexivity|].
  destruct (String.eqb k k'); simpl; [discriminate|].
  intros H. now rewrite IH.
Qed.

Lemma get_app_fresh (m : PlaceMap.t) (k k' : string) (v v' : PlaceResult) :
  PlaceMap.get m k = Some v ->
  PlaceMap.get (m ++ [(k', v')])%list k = Some v.
Proof.
  induction m as [|[k0 v0] m IH]; simpl; [discriminate|].
  destruct (String.eqb k k0); auto.
Qed.

Lemma get_None_has (m : PlaceMap.t) (k : string) :
  PlaceMap.get m k = None <-> PlaceMap.has m k = false.
Proof.
  induction m as [|[k0 v0] m IH]; simpl; [tauto|].
  destruct (String.eqb k k0); simpl; [split; discriminate | exact IH].
Qed.


(** One step of the accumulation either leaves the map alone or appends
    a new, non-empty key. *)
Lemma addPlace_cases (m : PlaceMap.t) (place : PlaceResult) :
  addPlace m place = m
  \/ exists pid,
       place_id place = Some pid /\ pid <> ""
       /\ PlaceMap.has m pid = false
       /\ addPlace m place = (m ++ [(pid, place)])%list.
Proof.
  unfold addPlace. destruct (place_id place) as [pid|]; [|now left].
  destruct pid as [|c pid]; [now left|]. simpl.
  destruct (PlaceMap.has m (String c pid)) eqn:E; simpl; [now left|].
  right. exists (String c pid). repeat split; try discriminate; auto.
  now apply set_fresh.
Qed.

Lemma addPlace_NoDup (m : PlaceMap.t) (place : PlaceResult) :
  NoDup (PlaceMap.keys m) -> NoDup (PlaceMap.keys (addPlace m place)).
Proof.
  intros H. destruct (addPlace_cases m place)
    as [-> | (pid & _ & _ & Hfresh & ->)]; [assumption|].
  unfold PlaceMap.keys. rewrite map_app. simpl.
  apply NoDup_app; [exact H | repeat constructor; auto |].
  intros k Hk [<-|[]]. apply has_iff in Hk. congruence.
Qed.


Lemma addPlace_get (m : PlaceMap.t) (place : PlaceResult) (k : string)
    (v : PlaceResult) :
  PlaceMap.get m k = Some v -> PlaceMap.get (addPlace m place) k = Some v.
Proof.
  intros H. destruct (addPlace_cases m place)
    as [-> | (pid & _ & _ & _ & ->)]; [assumption|].
  now apply get_app_fresh.
Qed.

Lemma addPlaces_NoDup (results : list PlaceResult) (m : PlaceMap.t) :
  NoDup (PlaceMap.keys m) -> NoDup (PlaceMap.keys (addPlaces results m)).
Proof.
  unfold addPlaces. revert m.
  induction results as [|p results IH]; simpl; intros m H; [assumption|].
  apply IH. now apply addPlace_NoDup.
Qed.


(** First occurrence wins: a key keeps the place it was first given. *)
Lemma addPlaces_get (results : list PlaceResult) (m : PlaceMap.t) (k : string)
    (v : PlaceResult) :
  PlaceMap.get m k = Some v -> PlaceMap.get (addPlaces results m) k = Some v.
Proof.
  unfold addPlaces. revert m.
  induction results as [|p results IH]; simpl; intros m H; [assumption|].
  apply IH. now apply addPlace_get.
Qed.


(** A place without an identifier, or with an empty one, is not
    accumulated. *)
Lemma addPlace_no_id (m : PlaceMap.t) (place : PlaceResult) :
  JS.truthy (place_id place) = false -> addPlace m place = m.
Proof.
  unfold addPlace. destruct (place_id place) as [[|c pid]|]; simpl;
    congruence.
Qed.

Lemma Subseq_NoDup {A} (l1 l2 : list A) :
  Subseq l1 l2 -> NoDup l2 -> NoDup l1.
Proof.
  induction 1 as [|x l1 l2 Hs IH|x l1 l2 Hs IH]; intros Hnd.
  - constructor.
  - inversion Hnd; subst. auto.
  - inversion Hnd; subst. constructor; [|auto].
    intros Hin. eapply Subseq_In in Hin; eauto.
Qed.

Lemma Subseq_nil_l {A} (l : list A) : Subseq [] l.
Proof. induction l; now constructor. Qed.

Lemma Subseq_refl {A} (l : list A) : Subseq l l.
Proof. induction l; now constructor. Qed.

Lemma Subseq_app_l {A} (pre l1 l2 : list A) :
  Subseq l1 l2 -> Subseq (pre ++ l1) (pre ++ l2).
Proof. intros H. induction pre; simpl; [assumption | now constructor]. Qed.

Lemma Subseq_trans {A} (l1 l2 l3 : list A) :
  Subseq l1 l2 -> Subseq l2 l3 -> Subseq l1 l3.
Proof.
  intros H12 H23. revert l1 H12.
  induction H23 as [|x l2 l3 _ IH|x l2 l3 _ IH]; intros l1 H12.
  - assumption.
  - constructor. now apply IH.
  - inversion H12; subst; constructor; now apply IH.
Qed.

Lemma firstn_Subseq {A} (n : nat) (l : list A) : Subseq (firstn n l) l.
Proof.
  revert n. induction l as [|x l IH]; intros [|n]; simpl;
    try apply Subseq_nil_l. apply Subseq_keep, IH.
Qed.

Lemma skipn_Subseq {A} (n : nat) (l : list A) : Subseq (skipn n l) l.
Proof.
  revert n. induction l as [|x l IH]; intros [|n]; simpl;
    try apply Subseq_refl. apply Subseq_skip, IH.
Qed.

(** A slice keeps elements of the array, in order. *)
Lemma slice_Subseq {A} (xs : list A) (start end_ : Z) :
  Subseq (JS.slice xs start end_) xs.
Proof.
  unfold JS.slice. eapply Subseq_trans; [apply firstn_Subseq|].
  apply skipn_Subseq.
Qed.

(** ** The loops of the aggregator *)

Lemma accumulate_NoDup (tiers : list (list PlaceResult)) (m : PlaceMap.t) :
  NoDup (PlaceMap.keys m) -> NoDup (PlaceMap.keys (accumulate tiers m)).
Proof.
  unfold accumulate. revert m.
  induction tiers as [|rs tiers IH]; simpl; intros m H; [assumption|].
  apply IH. now apply addPlaces_NoDup.
Qed.


Lemma accumulate_get (tiers : list (list PlaceResult)) (m : PlaceMap.t)
    (k : string) (v : PlaceResult) :
  PlaceMap.get m k = Some v -> PlaceMap.get (accumulate tiers m) k = Some v.
Proof.
  unfold accumulate. revert m.
  induction tiers as [|rs tiers IH]; simpl; intros m H; [assumption|].
  apply IH. now apply addPlaces_get.
Qed.

Lemma resultCount_nonneg (tiers : list (list PlaceResult)) :
  0 <= resultCount tiers.
Proof. induction tiers; simpl; lia. Qed.

Section AggregatorFacts.
Variable URL_hostname : string -> option string.
Variable World : Type.
Variable geocode :
  string -> World -> (option (list GeocoderResult) * GeocoderStatus) * World.
Variable nearbySearch :
  PlaceSearchRequest -> World ->
  (option (list PlaceResult) * PlacesServiceStatus) * World.
Variable getDetails :
  string -> list string -> World ->
  (option PlaceResult * PlacesServiceStatus) * World.
Variable Date_now : World -> Z * World.

(** *** One nearby search *)

Lemma nearbySearchPromise_OK request w results w' :
  nearbySearch request w = ((Some results, OK), w') ->
  nearbySearchPromise World nearbySearch request w = (inr results, w').
Proof.
  intros H. unfold nearbySearchPromise, Async.bind, Async.call.
  now rewrite H.
Qed.

Lemma nearbySearchPromise_ZERO_RESULTS request w r w' :
  nearbySearch request w = ((r, ZERO_RESULTS), w') ->
  nearbySearchPromise World nearbySearch request w = (inr [], w').
Proof.
  intros H. unfold nearbySearchPromise, Async.bind, Async.call.
  rewrite H. now destruct r.
Qed.

Lemma nearbySearchPromise_rejects request w r status w' :
  nearbySearch request w = ((r, status), w') ->
  status <> ZERO_RESULTS ->
  status <> OK \/ r = None ->
  nearbySearchPromise World nearbySearch request w
  = (inl (Error ("Places search failed: "
                 ++ PlacesServiceStatus_to_string status)), w').
Proof.
  intros H Hz Hok. unfold nearbySearchPromise, Async.bind, Async.call.
  rewrite H. destruct r, status; try reflexivity; try congruence;
    destruct Hok; congruence.
Qed.

(** A nearby search returns a list built from the single answer of the
    vendor, or rejects. *)
Lemma nearbySearchPromise_inv request w results w' :
  nearbySearchPromise World nearbySearch request w = (inr results, w') ->
  w' = snd (nearbySearch request w) /\ TierAnswer nearbySearch results.
Proof.
  unfold nearbySearchPromise, Async.bind, Async.call, Async.ret, Async.throw,
    TierAnswer.
  destruct (nearbySearch request w) as [[r status] w1] eqn:E.
  intros H. split.
  - destruct r, status; simpl in *; congruence.
  - exists request, w, r, status, w1. split; [assumption|].
    destruct r, status; simpl in H; try discriminate;
      injection H as <- _; auto.
Qed.

Lemma nearbySearchPromise_world request w :
  snd (nearbySearchPromise World nearbySearch request w)
  = snd (nearbySearch request w).
Proof.
  unfold nearbySearchPromise, Async.bind, Async.call.
  destruct (nearbySearch request w) as [[r status] w1].
  now destruct r, status.
Qed.

(** *** The tier loop *)

Section TierLoop.
Variable searchLocation : Location.
Variable categories : option (list string).
Variable targetResults : Z.

Let loop := tierLoop World nearbySearch searchLocation categories targetResults.
Let search (searchRadius : Q) :=
  nearbySearchPromise World nearbySearch
    (searchRequest searchLocation searchRadius categories).

(** Enough places: no further tier is searched. *)
Lemma tierLoop_stops radii st w :
  targetResults <= PlaceMap.size (fst st) -> loop radii st w = (inr st, w).
Proof.
  intros H. subst loop. destruct radii as [|r rest]; simpl; [reflexivity|].
  destruct (Z.geb_spec (PlaceMap.size (fst st)) targetResults); [|lia].
  reflexivity.
Qed.

(** Not enough places yet: the next tier is searched once, its places are
    merged if it answered, and the loop goes on either way. *)
Lemma tierLoop_step searchRadius rest st w :
  PlaceMap.size (fst st) < targetResults ->
  loop (searchRadius :: rest) st w
  = match search searchRadius w with
    | (inr results, w') =>
        loop rest
          (addPlaces results (fst st), snd st + Z.of_nat (length results)) w'
    | (inl _, w') => loop rest st w'
    end.
Proof.
  intros H. subst loop search. simpl.
  destruct (Z.geb_spec (PlaceMap.size (fst st)) targetResults); [lia|].
  unfold Async.bind at 1, Async.try_catch, searchTier.
  unfold Async.bind at 1.
  destruct (nearbySearchPromise _ _ _ w) as [[e|results] w']; reflexivity.
Qed.

(** The tier loop never rejects. *)
Lemma tierLoop_returns radii st w :
  exists st' w', loop radii st w = (inr st', w').
Proof.
  revert st w. induction radii as [|r rest IH]; intros st w.
  - exists st, w. reflexivity.
  - destruct (Z.lt_ge_cases (PlaceMap.size (fst st)) targetResults) as [Hlt|Hge].
    + rewrite tierLoop_step by assumption.
      destruct (search r w) as [[e|results] w']; apply IH.
    + exists st, w. now apply tierLoop_stops.
Qed.

(** What the tier loop leaves: the accumulation of the answers it got, at
    most one per radius, and their total count. *)
Lemma tierLoop_trace radii st w st' w' :
  loop radii st w = (inr st', w') ->
  exists tiers,
    (length tiers <= length radii)%nat
    /\ Forall (TierAnswer nearbySearch) tiers
    /\ fst st' = accumulate tiers (fst st)
    /\ snd st' = snd st + resultCount tiers.
Proof.
  revert st w. induction radii as [|r rest IH]; intros st w H.
  - subst loop. simpl in H. injection H as <- <-.
    exists []. simpl. repeat split; auto; lia.
  - destruct (Z.lt_ge_cases (PlaceMap.size (fst st)) targetResults) as [Hlt|Hge].
    + rewrite tierLoop_step in H by assumption.
      destruct (search r w) as [[e|results] w1] eqn:E.
      * destruct (IH _ _ H) as (tiers & Hlen & Hall & Hm & Hc).
        exists tiers. simpl. repeat split; auto.
      * destruct (IH _ _ H) as (tiers & Hlen & Hall & Hm & Hc).
        simpl in Hm, Hc. exists (results :: tiers). simpl.
        repeat split; auto; try lia.
        constructor; [|assumption].
        subst search. now apply nearbySearchPromise_inv in E.
    + rewrite tierLoop_stops in H by assumption. injection H as <- <-.
      exists []. simpl. repeat split; auto; lia.
Qed.

End TierLoop.

(** *** The detail loop *)

Lemma getDetailsPromise_OK placeId w d w' :
  getDetails placeId detailFields w = ((Some d, OK), w') ->
  getDetailsPromise World getDetails placeId w = (inr d, w').
Proof.
  intros H. unfold getDetailsPromise, Async.bind, Async.call. now rewrite H.
Qed.

Lemma getDetailsPromise_rejects placeId w r status w' :
  getDetails placeId detailFields w = ((r, status), w') ->
  status <> OK \/ r = None ->
  getDetailsPromise World getDetails placeId w
  = (inl (Error ("Place details failed: "
                 ++ PlacesServiceStatus_to_string status)), w').
Proof.
  intros H Hok. unfold getDetailsPromise, Async.bind, Async.call.
  rewrite H. destruct r, status; try reflexivity; destruct Hok; congruence.
Qed.

Lemma getDetailsPromise_inv placeId w d w' :
  getDetailsPromise World getDetails placeId w = (inr d, w') ->
  getDetails placeId detailFields w = ((Some d, OK), w').
Proof.
  unfold getDetailsPromise, Async.bind, Async.call, Async.ret, Async.throw.
  destruct (getDetails placeId detailFields w) as [[r status] w1].
  destruct r, status; simpl; congruence.
Qed.

Section DetailLoop.
Variable targetResults : Z.

Let loop := detailLoop World getDetails targetResults.
Let fetch := getDetailsPromise World getDetails.

Lemma detailLoop_stops entries detailedPlaces w :
  targetResults <= Z.of_nat (length detailedPlaces) ->
  loop entries detailedPlaces w = (inr detailedPlaces, w).
Proof.
  intros H. subst loop. destruct entries as [|[placeId p] rest]; simpl;
    [reflexivity|].
  destruct (Z.geb_spec (Z.of_nat (length detailedPlaces)) targetResults);
    [reflexivity | lia].
Qed.

(** A failed fetch skips its place only. *)
Lemma detailLoop_step placeId basicPlace rest detailedPlaces w :
  Z.of_nat (length detailedPlaces) < targetResults ->
  loop ((placeId, basicPlace) :: rest) detailedPlaces w
  = match fetch placeId w with
    | (inr d, w') => loop rest (detailedPlaces ++ [d])%list w'
    | (inl _, w') => loop rest detailedPlaces w'
    end.
Proof.
  intros H. subst loop fetch. simpl.
  destruct (Z.geb_spec (Z.of_nat (length detailedPlaces)) targetResults);
    [lia|].
  unfold Async.bind at 1, Async.try_catch. unfold Async.bind at 1.
  destruct (getDetailsPromise _ _ placeId w) as [[e|d] w']; reflexivity.
Qed.

(** The detail loop never rejects. *)
Lemma detailLoop_returns entries detailedPlaces w :
  exists out w', loop entries detailedPlaces w = (inr out, w').
Proof.
  revert detailedPlaces w.
  induction entries as [|[placeId p] rest IH]; intros acc w.
  - exists acc, w. reflexivity.
  - destruct (Z.lt_ge_cases (Z.of_nat (length acc)) targetResults) as [Hlt|Hge].
    + rewrite detailLoop_step by assumption.
      destruct (fetch placeId w) as [[e|d] w']; apply IH.
    + exists acc, w. now apply detailLoop_stops.
Qed.

(** The detailed list is made of the records fetched for a subsequence
    of the keys of the map, one record per key, in the order of the map. *)
Lemma detailLoop_trace entries detailedPlaces w out w' :
  loop entries detailedPlaces w = (inr out, w') ->
  exists fetched : list (string * PlaceResult),
    out = (detailedPlaces ++ map snd fetched)%list
    /\ Subseq (map fst fetched) (PlaceMap.keys entries)
    /\ Forall (fun e => Fetched getDetails (fst e) (snd e)) fetched.
Proof.
  revert detailedPlaces w.
  induction entries as [|[placeId p] rest IH]; intros acc w H.
  - subst loop. simpl in H. injection H as <- <-.
    exists []. simpl. rewrite app_nil_r. repeat split; constructor.
  - destruct (Z.lt_ge_cases (Z.of_nat (length acc)) targetResults) as [Hlt|Hge].
    + rewrite detailLoop_step in H by assumption.
      destruct (fetch placeId w) as [[e|d] w1] eqn:E.
      * destruct (IH _ _ H) as (fetched & Hout & Hsub & Hall).
        exists fetched. repeat split; auto. simpl. now constructor.
      * destruct (IH _ _ H) as (fetched & Hout & Hsub & Hall).
        exists ((placeId, d) :: fetched). simpl. repeat split.
        -- now rewrite Hout, <- app_assoc.
        -- now constructor.
        -- constructor; [|assumption]. simpl. subst fetch.
           apply getDetailsPromise_inv in E. now exists w, w1.
    + rewrite detailLoop_stops in H by assumption. injection H as <- <-.
      exists []. simpl. rewrite app_nil_r.
      repeat split; [apply Subseq_nil_l | constructor].
Qed.

(** At most [targetResults] records are fetched. *)
Lemma detailLoop_bound entries detailedPlaces w out w' :
  loop entries detailedPlaces w = (inr out, w') ->
  Z.of_nat (length out) <= Z.max (Z.of_nat (length detailedPlaces)) targetResults.
Proof.
  revert detailedPlaces w.
  induction entries as [|[placeId p] rest IH]; intros acc w H.
  - subst loop. simpl in H. injection H as <- <-. lia.
  - destruct (Z.lt_ge_cases (Z.of_nat (length acc)) targetResults) as [Hlt|Hge].
    + rewrite detailLoop_step in H by assumption.
      destruct (fetch placeId w) as [[e|d] w1] eqn:E.
      * apply IH in H. lia.
      * apply IH in H. rewrite length_app in H. simpl in H. lia.
    + rewrite detailLoop_stops in H by assumption. injection H as <- <-. lia.
Qed.

End DetailLoop.

(** Without duplicate keys in the map, no identifier is fetched twice;
    and when the detail service echoes the identifier, none appears twice
    in the detailed list. *)
Lemma fetched_NoDup (entries : PlaceMap.t) (fetched : list (string * PlaceResult)) :
  NoDup (PlaceMap.keys entries) ->
  Subseq (map fst fetched) (PlaceMap.keys entries) ->
  NoDup (map fst fetched).
Proof. intros Hnd Hsub. eapply Subseq_NoDup; eauto. Qed.

Lemma fetched_echo (fetched : list (string * PlaceResult)) :
  EchoesId getDetails ->
  Forall (fun e => Fetched getDetails (fst e) (snd e)) fetched ->
  map place_id (map snd fetched) = map Some (map fst fetched).
Proof.
  intros Hecho Hall. induction Hall as [|[pid d] fetched Hf _ IH]; simpl;
    [reflexivity|].
  rewrite IH. f_equal. now apply Hecho.
Qed.

Lemma NoDup_map_Some {A} (l : list A) : NoDup l -> NoDup (map Some l).
Proof.
  induction 1 as [|x l Hx _ IH]; simpl; constructor; [|assumption].
  rewrite in_map_iff. intros (y & E & Hy). injection E as ->. contradiction.
Qed.

(** *** The whole search *)

Lemma mapM_inv {A B} (f : A -> @Async.t World B) (xs : list A) (w : World)
    (ys : list B) (w' : World) :
  Async.mapM f xs w = (inr ys, w') ->
  Forall2 (fun x y => exists w1 w2, f x w1 = (inr y, w2)) xs ys.
Proof.
  revert w ys. induction xs as [|x xs IH]; intros w ys; simpl.
  - unfold Async.ret. intros H. injection H as <- _. constructor.
  - unfold Async.bind at 1. destruct (f x w) as [[e|y] w1] eqn:E;
      [discriminate|].
    unfold Async.bind. destruct (Async.mapM f xs w1) as [[e|ys'] w2] eqn:E';
      [discriminate|].
    unfold Async.ret. intros H. injection H as <- <-.
    constructor; [eauto | eapply IH; eauto].
Qed.

Lemma geocodePromise_OK address w results w' :
  geocode address w = ((Some results, G_OK), w') ->
  geocodePromise World geocode address w = (inr results, w').
Proof.
  intros H. unfold geocodePromise, Async.bind, Async.call. now rewrite H.
Qed.

Lemma geocodePromise_rejects address w r status w' :
  geocode address w = ((r, status), w') ->
  status <> G_OK \/ r = None ->
  geocodePromise World geocode address w
  = (inl (Error ("Geocoding failed: " ++ GeocoderStatus_to_string status)), w').
Proof.
  intros H Hok. unfold geocodePromise, Async.bind, Async.call.
  rewrite H. destruct r, status; try reflexivity; destruct Hok; congruence.
Qed.

(** A rejected geocoding rejects the search, after this one call. *)
Lemma searchBusinesses_geocode_rejects params w r status w' :
  geocode (p_location params) w = ((r, status), w') ->
  status <> G_OK \/ r = None ->
  searchBusinesses URL_hostname World geocode nearbySearch getDetails Date_now
    params w
  = (inl (Error ("Geocoding failed: " ++ GeocoderStatus_to_string status)), w').
Proof.
  intros H Hok. unfold searchBusinesses. unfold Async.bind at 1.
  now rewrite (geocodePromise_rejects _ _ _ _ _ H Hok).
Qed.

(** The stages of a search that returns. *)
Lemma searchBusinesses_inv params w r w' :
  searchBusinesses URL_hostname World geocode nearbySearch getDetails Date_now
    params w = (inr r, w') ->
  exists first others w1 st w2 detailedPlaces w3 mapped,
    geocode (p_location params) w = ((Some (first :: others), G_OK), w1)
    /\ tierLoop World nearbySearch (gr_location first) (p_categories params)
         (limitOf params * 3) (searchRadii (p_radius params))
         (PlaceMap.empty, 0) w1 = (inr st, w2)
    /\ detailLoop World getDetails (limitOf params * 3) (fst st) [] w2
       = (inr detailedPlaces, w3)
    /\ Async.mapM
         (fun place =>
            mapPlaceToBusiness URL_hostname World Date_now place
              (p_location params))
         detailedPlaces w3 = (inr mapped, w')
    /\ r = paginate (fst st)
             (filter (keepBusiness (p_websiteType params)
                        (p_excludeWebsiteTypes params)) mapped)
             (skipOf params) (limitOf params).
Proof.
  unfold searchBusinesses. unfold Async.bind at 1.
  unfold geocodePromise at 1. unfold Async.bind at 1, Async.call at 1.
  destruct (geocode (p_location params) w) as [[gr status] w1] eqn:Eg.
  destruct gr as [[|first others]|], status; try discriminate.
  unfold Async.ret at 1. unfold Async.bind at 1.
  destruct (tierLoop _ _ _ _ _ _ _ w1) as [[e|st] w2] eqn:Et; [discriminate|].
  unfold Async.bind at 1.
  destruct (detailLoop _ _ _ _ _ w2) as [[e|detailed] w3] eqn:Ed;
    [discriminate|].
  unfold Async.bind at 1.
  destruct (Async.mapM _ detailed w3) as [[e|mapped] w4] eqn:Em;
    [discriminate|].
  unfold Async.ret. intros H. injection H as <- <-.
  exists first, others, w1, st, w2, detailed, w3, mapped.
  repeat split; assumption.
Qed.

End AggregatorFacts.

(** ** Radius tiers *)

Lemma Qle_bool_false (x y : Q) : (y < x)%Q -> Qle_bool x y = false.
Proof.
  intros H. apply not_true_is_false. rewrite Qle_bool_iff.
  now apply Qlt_not_le.
Qed.

(** C6.  The search radii derived from the requested radius: the radius
    alone up to 2000; the smaller of 2000 and half the radius, then the
    radius, above 2000 and up to 10000; and 2000, 5000, 10000 and the
    radius above 10000. *)
Theorem searchRadii_spec :
  forall radius : Q,
    ((radius <= 2000)%Q -> searchRadii radius = [radius])
    /\ ((2000 < radius)%Q -> (radius <= 10000)%Q ->
        searchRadii radius = [JS.Math_min 2000 (radius / 2); radius])
    /\ ((10000 < radius)%Q ->
        searchRadii radius = [2000%Q; 5000%Q; 10000%Q; radius]).
Proof.
  intros radius. unfold searchRadii. repeat split.
  - intros H. apply Qle_bool_iff in H. now rewrite H.
  - intros Hlo Hhi. rewrite (Qle_bool_false _ _ Hlo).
    apply Qle_bool_iff in Hhi. now rewrite Hhi.
  - intros H.
    assert (Hlo : (2000 < radius)%Q)
      by (eapply Qlt_trans; [|exact H]; reflexivity).
    now rewrite (Qle_bool_false _ _ Hlo), (Qle_bool_false _ _ H).
Qed.

Lemma searchRadii_spec_witness :
  searchRadii 1500 = [1500%Q]
  /\ searchRadii 3001 = [JS.Math_min 2000 (3001 / 2); 3001%Q]
  /\ searchRadii 20000 = [2000%Q; 5000%Q; 10000%Q; 20000%Q].
Proof.
  split; [|split].
  - apply (searchRadii_spec 1500). unfold Qle. simpl. lia.
  - apply (searchRadii_spec 3001); [unfold Qlt | unfold Qle]; simpl; lia.
  - apply (searchRadii_spec 20000). unfold Qlt. simpl. lia.
Defined.

(** The inner tier of the middle range is half the radius below 4000 and
    2000 from there on. *)
Lemma inner_tier (radius : Q) :
  ((radius <= 4000)%Q -> (JS.Math_min 2000 (radius / 2) == radius / 2)%Q)
  /\ ((4000 <= radius)%Q -> (JS.Math_min 2000 (radius / 2) == 2000)%Q).
Proof.
  unfold JS.Math_min. split; intros H.
  - apply Q.min_r. apply Qle_shift_div_r; [reflexivity|].
    exact H.
  - apply Q.min_l. apply Qle_shift_div_l; [reflexivity|].
    exact H.
Qed.

Example searchRadii_odd : searchRadii 3001 = [(3001 # 2)%Q; 3001%Q].
Proof. reflexivity. Qed.

(** ** Filtering *)

Lemma isPermanentlyClosed_iff (b : Business) :
  isPermanentlyClosed b = true <-> businessStatus b = "PERMANENTLY_CLOSED".
Proof. apply String.eqb_eq. Qed.

Lemma keepBusiness_closed wt ex (b : Business) :
  businessStatus b = "PERMANENTLY_CLOSED" -> keepBusiness wt ex b = false.
Proof.
  intros H. apply isPermanentlyClosed_iff in H. unfold keepBusiness.
  now rewrite H.
Qed.

Lemma keepBusiness_open wt ex (b : Business) :
  businessStatus b <> "PERMANENTLY_CLOSED" ->
  keepBusiness wt ex b
  = match wt with
    | Some w => WebsiteType_eqb (websiteType b) w
    | None =>
        match ex with
        | Some (t :: ts) =>
            negb (existsb (WebsiteType_eqb (websiteType b)) (t :: ts))
        | _ => true
        end
    end.
Proof.
  intros H. unfold keepBusiness.
  destruct (isPermanentlyClosed b) eqn:E; [|reflexivity].
  now apply isPermanentlyClosed_iff in E.
Qed.

Lemma existsb_WebsiteType (x : WebsiteType) (l : list WebsiteType) :
  existsb (WebsiteType_eqb x) l = true <-> In x l.
Proof.
  rewrite existsb_exists. split.
  - intros (y & Hin & E). apply WebsiteType_eqb_eq in E. now subst.
  - intros H. exists x. split; [assumption | now apply WebsiteType_eqb_eq].
Qed.

(** C2.  The filter of [searchBusinesses], on the classified list
    [mapped]: a business whose status is PERMANENTLY_CLOSED is dropped
    whatever the filter parameters; with a [websiteType] filter exactly
    the other businesses of that website type are kept; else with a
    non-empty [excludeWebsiteTypes] exactly the other businesses whose
    website type is not listed are kept; with neither, every business that
    is not permanently closed is kept.  The kept businesses stay in order,
    and a search that returns returns a slice of them. *)
Theorem keepBusiness_spec :
  forall (wt : option WebsiteType) (ex : option (list WebsiteType))
         (mapped : list Business),
    let kept := filter (keepBusiness wt ex) mapped in
    Subseq kept mapped
    /\ (forall b, businessStatus b = "PERMANENTLY_CLOSED" -> ~ In b kept)
    /\ (forall b w, wt = Some w ->
          (In b kept
           <-> In b mapped /\ businessStatus b <> "PERMANENTLY_CLOSED"
               /\ websiteType b = w))
    /\ (forall b t ts, wt = None -> ex = Some (t :: ts) ->
          (In b kept
           <-> In b mapped /\ businessStatus b <> "PERMANENTLY_CLOSED"
               /\ ~ In (websiteType b) (t :: ts)))
    /\ (forall b, wt = None -> ex = None \/ ex = Some [] ->
          (In b kept
           <-> In b mapped /\ businessStatus b <> "PERMANENTLY_CLOSED"))
    /\ (forall URL_hostname World geocode nearbySearch getDetails Date_now
               params w r w',
          p_websiteType params = wt -> p_excludeWebsiteTypes params = ex ->
          searchBusinesses URL_hostname World geocode nearbySearch getDetails
            Date_now params w = (inr r, w') ->
          forall b, In b (businesses r) ->
                    keepBusiness wt ex b = true
                    /\ businessStatus b <> "PERMANENTLY_CLOSED").
Proof.
  intros wt ex mapped kept.
  assert (Hclosed : forall b, keepBusiness wt ex b = true ->
                              businessStatus b <> "PERMANENTLY_CLOSED").
  { intros b Hk Hc. rewrite (keepBusiness_closed _ _ _ Hc) in Hk.
    discriminate. }
  assert (Hkept : forall b (P : Prop),
             (businessStatus b <> "PERMANENTLY_CLOSED" ->
              (keepBusiness wt ex b = true <-> P)) ->
             (In b kept
              <-> In b mapped /\ businessStatus b <> "PERMANENTLY_CLOSED" /\ P)).
  { intros b P HP. subst kept. rewrite filter_In. split.
    - intros [Hin Hk]. pose proof (Hclosed _ Hk) as Ho.
      repeat split; auto. now apply HP.
    - intros (Hin & Ho & Hp). split; [assumption|]. now apply HP. }
  split; [apply filter_Subseq|].
  split.
  { intros b Hc Hin. subst kept. apply filter_In in Hin as [_ Hk].
    now apply (Hclosed b). }
  split.
  { intros b w ->. apply Hkept. intros Ho.
    rewrite (keepBusiness_open _ _ _ Ho). apply WebsiteType_eqb_eq. }
  split.
  { intros b t ts -> ->. apply Hkept. intros Ho.
    rewrite (keepBusiness_open _ _ _ Ho), negb_true_iff,
      <- not_true_iff_false, existsb_WebsiteType. reflexivity. }
  split.
  { intros b -> Hex.
    assert (H : businessStatus b <> "PERMANENTLY_CLOSED" ->
                (keepBusiness None ex b = true <-> True)).
    { intros Ho. rewrite (keepBusiness_open _ _ _ Ho).
      destruct Hex as [-> | ->]; tauto. }
    rewrite (Hkept b True H). tauto. }
  intros URL_hostname World geocode nearbySearch getDetails Date_now
    params w r w' <- <- Hrun b Hin.
  apply searchBusinesses_inv in Hrun
    as (first & others & w1 & st & w2 & detailed & w3 & mapped' & _ & _ & _ & _
        & ->).
  simpl in Hin. apply (Subseq_In _ _ _ (slice_Subseq _ _ _)) in Hin.
  apply filter_In in Hin as [_ Hk].
  split; [assumption | now apply Hclosed].
Qed.

Lemma keepBusiness_spec_witness :
  let mapped :=
    [ Demo.business "OPERATIONAL" facebook;
      Demo.business "PERMANENTLY_CLOSED" facebook;
      Demo.business "OPERATIONAL" legitimate ] in
  In (Demo.business "OPERATIONAL" facebook)
    (filter (keepBusiness (Some facebook) None) mapped)
  /\ ~ In (Demo.business "PERMANENTLY_CLOSED" facebook)
       (filter (keepBusiness (Some facebook) None) mapped)
  /\ In (Demo.business "OPERATIONAL" legitimate)
       (filter (keepBusiness None None) mapped).
Proof.
  intros mapped.
  destruct (keepBusiness_spec (Some facebook) None mapped)
    as (_ & Hclosed & Hwt & _).
  destruct (keepBusiness_spec None None mapped) as (_ & _ & _ & _ & Hall & _).
  split; [|split].
  - apply (Hwt _ facebook eq_refl).
    split; [now left | split; [discriminate | reflexivity]].
  - apply Hclosed. reflexivity.
  - apply (Hall _ eq_refl (or_introl eq_refl)).
    split; [right; right; now left | discriminate].
Defined.

(** ** Pagination *)

Lemma paginate_businesses allPlaces (filtered : list Business) skip limit :
  0 <= skip -> 0 <= limit ->
  businesses (paginate allPlaces filtered skip limit)
  = firstn (Z.to_nat limit) (skipn (Z.to_nat skip) filtered).
Proof.
  intros Hs Hl. simpl. rewrite slice_nonneg by lia.
  now replace (skip + limit - skip) with limit by lia.
Qed.



(** The count returned by a search is the count of unique raw places: in
    this run two places are found, one is detailed and kept. *)
Example totalCount_is_not_filtered_count :
  exists r w',
    Demo.run Demo.script_tiers (Demo.params 3000 None None None) []
    = (inr r, w')
    /\ totalCount r = 2 /\ length (businesses r) = 1%nat
    /\ hasMore r = false.
Proof. do 2 eexists. split; [vm_compute; reflexivity|]. now simpl. Qed.

(** ** Business status *)

Lemma statusOf_falsy (place : PlaceResult) :
  JS.truthy (business_status place) = false -> statusOf place = "OPERATIONAL".
Proof. intros H. unfold statusOf. now rewrite H. Qed.

Lemma statusOf_truthy (place : PlaceResult) (c : ascii) (s : string) :
  business_status place = Some (String c s) -> statusOf place = String c s.
Proof. intros H. unfold statusOf. now rewrite H. Qed.

(** C10.  A raw place without a business-status field is mapped, whenever
    it is mapped at all, to a business whose status is OPERATIONAL, not
    "unknown" and not PERMANENTLY_CLOSED; the permanently-closed test of
    the search filter lets it through, so only the website-type filters
    decide whether it is kept. *)
Theorem absent_status_is_operational :
  forall (URL_hostname : string -> option string) (World : Type)
         (Date_now : World -> Z * World) (place : PlaceResult)
         (query : string) (w : World),
    business_status place = None ->
    statusOf place = "OPERATIONAL"
    /\ (forall g loc,
          geometry place = Some g -> g_location g = Some loc ->
          exists b w',
            mapPlaceToBusiness URL_hostname World Date_now place query w
            = (inr b, w'))
    /\ (forall b w',
          mapPlaceToBusiness URL_hostname World Date_now place query w
          = (inr b, w') ->
          businessStatus b = "OPERATIONAL"
          /\ businessStatus b <> "unknown"
          /\ isPermanentlyClosed b = false
          /\ keepBusiness None None b = true
          /\ forall wt ex,
               keepBusiness wt ex b
               = match wt with
                 | Some t => WebsiteType_eqb (websiteType b) t
                 | None =>
                     match ex with
                     | Some (t :: ts) =>
                         negb (existsb (WebsiteType_eqb (websiteType b))
                                 (t :: ts))
                     | _ => true
                     end
                 end).
Proof.
  intros URL_hostname World Date_now place query w Habs.
  assert (Hs : statusOf place = "OPERATIONAL")
    by (apply statusOf_falsy; now rewrite Habs).
  split; [exact Hs|]. split.
  - intros g loc Hg Hl.
    destruct (mapPlaceToBusiness_returns URL_hostname World Date_now place
                query w g loc Hg Hl) as [b Hb]. eauto.
  - intros b w' H.
    apply mapPlaceToBusiness_inv in H
      as (g & loc & _ & _ & _ & _ & _ & _ & Hst & _).
    rewrite Hs in Hst.
    assert (Ho : businessStatus b <> "PERMANENTLY_CLOSED")
      by (rewrite Hst; discriminate).
    split; [exact Hst|]. split; [rewrite Hst; discriminate|].
    split; [unfold isPermanentlyClosed; now rewrite Hst|].
    split; [now rewrite (keepBusiness_open _ _ _ Ho)|].
    intros wt ex. now apply keepBusiness_open.
Qed.

Lemma absent_status_is_operational_witness :
  let place := Demo.detail (Some "a") None None None ["cafe"] in
  exists b w',
    mapPlaceToBusiness Demo.URL_hostname Demo.World Demo.Date_now place
      "Springfield" [] = (inr b, w')
    /\ businessStatus b = "OPERATIONAL"
    /\ keepBusiness None None b = true.
Proof.
  intros place.
  destruct (absent_status_is_operational Demo.URL_hostname Demo.World
              Demo.Date_now place "Springfield" [] eq_refl)
    as (_ & Hret & Hb).
  destruct (Hret {| g_location := Some Demo.here |} Demo.here eq_refl eq_refl)
    as (b & w' & Hrun).
  exists b, w'. split; [exact Hrun|].
  destruct (Hb b w' Hrun) as (Hst & _ & _ & Hkeep & _). auto.
Defined.

(** A status string that is present is copied as it is, whatever it is. *)
Example status_is_copied :
  statusOf (Demo.detail None None None (Some "PERMANENTLY_CLOSED") [])
  = "PERMANENTLY_CLOSED"
  /\ statusOf (Demo.detail None None None (Some "CLOSED_PERMANENTLY") [])
     = "CLOSED_PERMANENTLY"
  /\ statusOf (Demo.detail None None None (Some "") []) = "OPERATIONAL".
Proof. repeat split. Qed.

(** ** Failures of the vendor calls *)

(** C5.  In [searchBusinesses]: a nearby search answering ZERO_RESULTS
    gives the empty result list, and its tier leaves the map as it is; any
    other answer that is not OK with a list rejects, the tier is skipped
    and the loop goes on with the next tier, so the tier loop never
    rejects; a failed detail fetch skips its place only, a successful one
    appends its record, and the detail loop never rejects; a geocoding
    whose status is not OK rejects the whole search with the geocoding
    error, and nothing is called after that one geocoding call. *)
Theorem failures_spec :
  forall (URL_hostname : string -> option string) (World : Type)
         (geocode :
            string -> World ->
            (option (list GeocoderResult) * GeocoderStatus) * World)
         (nearbySearch :
            PlaceSearchRequest -> World ->
            (option (list PlaceResult) * PlacesServiceStatus) * World)
         (getDetails :
            string -> list string -> World ->
            (option PlaceResult * PlacesServiceStatus) * World)
         (Date_now : World -> Z * World),
    let tiers := tierLoop World nearbySearch in
    let details := detailLoop World getDetails in
    (forall request w r w',
        nearbySearch request w = ((r, ZERO_RESULTS), w') ->
        nearbySearchPromise World nearbySearch request w = (inr [], w'))
    /\ (forall loc cats target radius rest m count w r w',
          PlaceMap.size m < target ->
          nearbySearch (searchRequest loc radius cats) w
          = ((r, ZERO_RESULTS), w') ->
          tiers loc cats target (radius :: rest) (m, count) w
          = tiers loc cats target rest (m, count) w')
    /\ (forall loc cats target radius rest st w r status w',
          PlaceMap.size (fst st) < target ->
          nearbySearch (searchRequest loc radius cats) w = ((r, status), w') ->
          status <> ZERO_RESULTS -> status <> OK \/ r = None ->
          tiers loc cats target (radius :: rest) st w
          = tiers loc cats target rest st w')
    /\ (forall loc cats target radii st w,
          exists st' w', tiers loc cats target radii st w = (inr st', w'))
    /\ (forall target placeId basicPlace rest detailedPlaces w r status w',
          Z.of_nat (length detailedPlaces) < target ->
          getDetails placeId detailFields w = ((r, status), w') ->
          status <> OK \/ r = None ->
          details target ((placeId, basicPlace) :: rest) detailedPlaces w
          = details target rest detailedPlaces w')
    /\ (forall target placeId basicPlace rest detailedPlaces w d w',
          Z.of_nat (length detailedPlaces) < target ->
          getDetails placeId detailFields w = ((Some d, OK), w') ->
          details target ((placeId, basicPlace) :: rest) detailedPlaces w
          = details target rest (detailedPlaces ++ [d])%list w')
    /\ (forall target entries detailedPlaces w,
          exists out w',
            details target entries detailedPlaces w = (inr out, w'))
    /\ (forall params w r status w',
          geocode (p_location params) w = ((r, status), w') ->
          status <> G_OK ->
          searchBusinesses URL_hostname World geocode nearbySearch getDetails
            Date_now params w
          = (inl (Error ("Geocoding failed: "
                         ++ GeocoderStatus_to_string status)), w')).
Proof.
  intros URL_hostname World geocode nearbySearch getDetails Date_now
    tiers details.
  split; [apply nearbySearchPromise_ZERO_RESULTS|].
  split.
  { intros loc cats target radius rest m count w r w' Hlt H.
    subst tiers. rewrite tierLoop_step by assumption.
    rewrite (nearbySearchPromise_ZERO_RESULTS _ _ _ _ _ _ H). simpl.
    now rewrite Z.add_0_r. }
  split.
  { intros loc cats target radius rest st w r status w' Hlt H Hz Hok.
    subst tiers. rewrite tierLoop_step by assumption.
    now rewrite (nearbySearchPromise_rejects _ _ _ _ _ _ _ H Hz Hok). }
  split; [intros; apply tierLoop_returns|].
  split.
  { intros target placeId basicPlace rest acc w r status w' Hlt H Hok.
    subst details. rewrite detailLoop_step by assumption.
    now rewrite (getDetailsPromise_rejects _ _ _ _ _ _ _ H Hok). }
  split.
  { intros target placeId basicPlace rest acc w d w' Hlt H.
    subst details. rewrite detailLoop_step by assumption.
    now rewrite (getDetailsPromise_OK _ _ _ _ _ _ H). }
  split; [intros; apply detailLoop_returns|].
  intros params w r status w' H Hst.
  apply (searchBusinesses_geocode_rejects _ _ _ _ _ _ _ _ _ _ _ H).
  now left.
Qed.

Lemma failures_spec_witness :
  Demo.run Demo.script_nowhere (Demo.params 3000 None None None) []
  = (inl (Error "Geocoding failed: ZERO_RESULTS"),
     [Demo.CallGeocode "Springfield"])
  /\ tierLoop Demo.World (Demo.nearbySearch Demo.script_denied) Demo.here
       None 60 [1000%Q] (PlaceMap.empty, 0) []
     = (inr (PlaceMap.empty, 0),
        [Demo.CallNearbySearch (searchRequest Demo.here 1000 None)]).
Proof.
  split.
  - destruct (failures_spec Demo.URL_hostname Demo.World
                (Demo.geocode Demo.script_nowhere)
                (Demo.nearbySearch Demo.script_nowhere)
                (Demo.getDetails Demo.script_nowhere) Demo.Date_now)
      as (_ & _ & _ & _ & _ & _ & _ & Hgeo).
    apply (Hgeo (Demo.params 3000 None None None) [] None G_ZERO_RESULTS
             [Demo.CallGeocode "Springfield"] eq_refl).
    discriminate.
  - destruct (failures_spec Demo.URL_hostname Demo.World
                (Demo.geocode Demo.script_denied)
                (Demo.nearbySearch Demo.script_denied)
                (Demo.getDetails Demo.script_denied) Demo.Date_now)
      as (_ & _ & Hskip & _).
    rewrite (Hskip Demo.here None 60 1000%Q [] (PlaceMap.empty, 0) [] None
               REQUEST_DENIED
               [Demo.CallNearbySearch (searchRequest Demo.here 1000 None)]);
      [reflexivity | reflexivity | reflexivity | discriminate
       | left; discriminate].
Defined.

(** One tier answers ZERO_RESULTS and the other OK: the search uses the
    places of the second; the detail fetch of "a" fails and "b" is still
    returned. *)
Example zero_results_then_ok :
  exists r w',
    Demo.run Demo.script_tiers (Demo.params 3000 None None None) []
    = (inr r, w')
    /\ map id (businesses r) = [Some "b"]
    /\ map websiteType (businesses r) = [facebook].
Proof. do 2 eexists. split; [vm_compute; reflexivity|]. now simpl. Qed.

(** Every tier is denied: the search still returns, with nothing. *)
Example denied_tiers_are_skipped :
  exists w',
    Demo.run Demo.script_denied (Demo.params 20000 None None None) []
    = (inr {| businesses := []; totalCount := 0; hasMore := false |}, w')
    /\ length w' = 5%nat.
Proof. eexists. split; [vm_compute; reflexivity|]. reflexivity. Qed.

(** ** Deduplication *)



Lemma script_echo_echoes : EchoesId (Demo.getDetails Demo.script_echo).
Proof.
  intros placeId d (w & w' & H). unfold Demo.getDetails in H. simpl in H.
  injection H as <- _. reflexivity.
Qed.


(** The first place with an identifier is the one the map keeps. *)
Example first_occurrence_wins :
  let first := Demo.detail (Some "a") None (Some "555-0100") None [] in
  let later := Demo.detail (Some "a") None (Some "555-0199") None [] in
  PlaceMap.get (accumulate [[first]; [later]] PlaceMap.empty) "a" = Some first
  /\ PlaceMap.size (accumulate [[first]; [later]] PlaceMap.empty) = 1
  /\ resultCount [[first]; [later]] = 2.
Proof. repeat split. Qed.

(** The tier loop does not look at the map inside a tier: one tier may
    take the map past the target. *)
Example target_is_checked_between_tiers :
  exists st w',
    tierLoop Demo.World (Demo.nearbySearch Demo.script_echo) Demo.here None
      (0 * 3 + 1) [1000%Q; 2000%Q] (PlaceMap.empty, 0) [] = (inr st, w')
    /\ PlaceMap.size (fst st) = 2 /\ length w' = 1%nat.
Proof. do 2 eexists. split; [vm_compute; reflexivity|]. now simpl. Qed.

Lemma Subseq_map {A B} (f : A -> B) (l1 l2 : list A) :
  Subseq l1 l2 -> Subseq (map f l1) (map f l2).
Proof. induction 1; simpl; now constructor. Qed.

(** X19.  When the detail service echoes identifiers, the businesses of
    a result have distinct identifiers. *)
Lemma searchBusinesses_ids_NoDup
    (URL_hostname : string -> option string) (World : Type)
    (geocode :
       string -> World -> (option (list GeocoderResult) * GeocoderStatus) * World)
    (nearbySearch :
       PlaceSearchRequest -> World ->
       (option (list PlaceResult) * PlacesServiceStatus) * World)
    (getDetails :
       string -> list string -> World ->
       (option PlaceResult * PlacesServiceStatus) * World)
    (Date_now : World -> Z * World) params w r w' :
  EchoesId getDetails ->
  searchBusinesses URL_hostname World geocode nearbySearch getDetails Date_now
    params w = (inr r, w') ->
  NoDup (map id (businesses r)).
Proof.
  intros Hecho Hrun.
  apply searchBusinesses_inv in Hrun
    as (first & others & w1 & st & w2 & detailed & w3 & mapped & _ & Ht & Hd
        & Hm & ->).
  apply tierLoop_trace in Ht as (tiers & _ & _ & Hst & _). simpl in Hst.
  apply detailLoop_trace in Hd as (fetched & Hout & Hsub & Hall).
  simpl in Hout.
  assert (Hids : map id mapped = map place_id detailed).
  { apply mapM_inv in Hm. clear - Hm.
    induction Hm as [|p b ps bs (wa & wb & Hb) _ IH]; simpl; [reflexivity|].
    rewrite IH. f_equal.
    now apply mapPlaceToBusiness_inv in Hb
      as (_ & _ & _ & _ & _ & _ & _ & _ & _ & _ & Hid & _). }
  apply (Subseq_NoDup _ (map id mapped)).
  - apply Subseq_map. simpl.
    eapply Subseq_trans; [apply slice_Subseq | apply filter_Subseq].
  - rewrite Hids, Hout, (fetched_echo _ _ _ Hecho Hall).
    apply NoDup_map_Some. eapply fetched_NoDup; eauto.
    rewrite Hst. apply accumulate_NoDup. constructor.
Qed.

(** ** The older aggregator *)

(** The older filter also drops a permanently closed business. *)
Lemma Legacy_keepBusiness_closed ex (b : Business) :
  businessStatus b = "PERMANENTLY_CLOSED" -> Legacy.keepBusiness ex b = false.
Proof.
  intros H. apply isPermanentlyClosed_iff in H. unfold Legacy.keepBusiness.
  now rewrite H.
Qed.

(** Without a list, the older filter drops the legitimate websites, which
    the current filter keeps; with a list, it keeps the listed types, which
    the current filter drops. *)
Lemma Legacy_keepBusiness_differs :
  Legacy.keepBusiness None (Demo.business "OPERATIONAL" legitimate) = false
  /\ keepBusiness None None (Demo.business "OPERATIONAL" legitimate) = true
  /\ Legacy.keepBusiness (Some [facebook])
       (Demo.business "OPERATIONAL" facebook) = true
  /\ keepBusiness None (Some [facebook])
       (Demo.business "OPERATIONAL" facebook) = false.
Proof. repeat split. Qed.

(** The older result never announces more, and counts what it returns. *)
Lemma Legacy_paginate_spec (filtered : list Business) (limit : Z) :
  0 <= limit ->
  let r := Legacy.paginate filtered limit in
  businesses r = firstn (Z.to_nat limit) filtered
  /\ hasMore r = false
  /\ totalCount r = Z.of_nat (length (businesses r)).
Proof.
  intros H r. subst r. unfold Legacy.paginate. simpl.
  rewrite slice_nonneg by lia. simpl. rewrite Z.sub_0_r. auto.
Qed.

(** * Further properties of the service *)

(** ** More on the classifier *)

Lemma string_app_assoc (a b c : string) : (a ++ b) ++ c = a ++ (b ++ c).
Proof. induction a as [|x a IH]; simpl; [reflexivity | now rewrite IH]. Qed.

Lemma toLowerCase_app (a b : string) :
  JS.toLowerCase (a ++ b) = JS.toLowerCase a ++ JS.toLowerCase b.
Proof. induction a as [|x a IH]; simpl; [reflexivity | now rewrite IH]. Qed.

Lemma Occurs_extend (d s pre post : string) :
  Occurs d s -> Occurs d (pre ++ s ++ post).
Proof.
  intros (a & b & ->). exists (pre ++ a), (b ++ post).
  now rewrite !string_app_assoc.
Qed.

Lemma OccursAny_extend (domains : list string) (h pre post : string) :
  OccursAny domains (JS.toLowerCase h) ->
  OccursAny domains (JS.toLowerCase (pre ++ h ++ post)).
Proof.
  intros (d & Hin & Hocc). exists d. split; [assumption|].
  rewrite !toLowerCase_app. now apply Occurs_extend.
Qed.

Section ClassifierMore.
Variable URL_hostname : string -> option string.

(** What the cascade answers on an address that parses, by the tables
    that occur in its lower-cased hostname. *)
Lemma determineWebsiteType_cases (c : ascii) (u h : string) :
  URL_hostname (String c u) = Some h ->
  let domain := JS.toLowerCase h in
  let t := determineWebsiteType URL_hostname (Some (String c u)) in
  (t = facebook <-> OccursAny FACEBOOK_DOMAINS domain)
  /\ (t = yelp <->
      ~ OccursAny FACEBOOK_DOMAINS domain /\ OccursAny YELP_DOMAINS domain)
  /\ (t = legitimate <-> ~ OccursAny PLATFORM_DOMAINS domain)
  /\ t <> none.
Proof.
  intros Hu domain t. subst t.
  rewrite (determineWebsiteType_parsed _ _ _ _ Hu). fold domain. cbv zeta.
  assert (Hsub : forall d, In d FACEBOOK_DOMAINS \/ In d YELP_DOMAINS ->
                           In d PLATFORM_DOMAINS) by apply platform_table_covers.
  destruct (JS.some (fun fb => JS.includes domain fb) FACEBOOK_DOMAINS) eqn:Ef;
    [|destruct (JS.some (fun y => JS.includes domain y) YELP_DOMAINS) eqn:Ey;
      [|destruct (JS.some (fun p => JS.includes domain p) PLATFORM_DOMAINS)
          eqn:Ep]].
  - apply some_includes_iff in Ef. fold (OccursAny FACEBOOK_DOMAINS domain) in Ef.
    repeat split; try discriminate; try tauto.
    intros Hn. exfalso. apply Hn. destruct Ef as (d & Hd & Ho).
    exists d. auto.
  - apply some_includes_iff in Ey. fold (OccursAny YELP_DOMAINS domain) in Ey.
    assert (Hnf : ~ OccursAny FACEBOOK_DOMAINS domain).
    { intros H. apply some_includes_iff in H. congruence. }
    repeat split; try discriminate; try tauto.
    intros Hn. exfalso. apply Hn. destruct Ey as (d & Hd & Ho).
    exists d. auto.
  - apply some_includes_iff in Ep.
    fold (OccursAny PLATFORM_DOMAINS domain) in Ep.
    assert (Hnf : ~ OccursAny FACEBOOK_DOMAINS domain).
    { intros H. apply some_includes_iff in H. congruence. }
    assert (Hny : ~ OccursAny YELP_DOMAINS domain).
    { intros H. apply some_includes_iff in H. congruence. }
    repeat split; try discriminate; try tauto.
  - assert (Hnf : ~ OccursAny FACEBOOK_DOMAINS domain).
    { intros H. apply some_includes_iff in H. congruence. }
    assert (Hny : ~ OccursAny YELP_DOMAINS domain).
    { intros H. apply some_includes_iff in H. congruence. }
    assert (Hnp : ~ OccursAny PLATFORM_DOMAINS domain).
    { intros H. apply some_includes_iff in H. congruence. }
    repeat split; try discriminate; try tauto.
Qed.

(** X1.  A platform domain anywhere in a longer hostname still counts: if
    the hostname of one address occurs inside the hostname of another,
    then a Facebook answer for the first is a Facebook answer for the
    second, a Yelp answer becomes Facebook or Yelp, and the second is
    [legitimate] only if the first is. *)
Theorem platform_match_survives_extension :
  forall (u1 u2 h pre post : string),
    URL_hostname "" = None ->
    URL_hostname u1 = Some h ->
    URL_hostname u2 = Some (pre ++ h ++ post) ->
    let t1 := determineWebsiteType URL_hostname (Some u1) in
    let t2 := determineWebsiteType URL_hostname (Some u2) in
    (t1 = facebook -> t2 = facebook)
    /\ (t1 = yelp -> t2 = facebook \/ t2 = yelp)
    /\ (t2 = legitimate -> t1 = legitimate).
Proof.
  intros u1 u2 h pre post Hempty H1 H2 t1 t2.
  destruct u1 as [|c1 u1]; [congruence|].
  destruct u2 as [|c2 u2]; [congruence|].
  destruct (determineWebsiteType_cases _ _ _ H1) as (Hf1 & Hy1 & Hl1 & _).
  destruct (determineWebsiteType_cases _ _ _ H2) as (Hf2 & Hy2 & Hl2 & _).
  fold t1 in Hf1, Hy1, Hl1. fold t2 in Hf2, Hy2, Hl2.
  split; [|split].
  - intros E. apply Hf2. apply OccursAny_extend. now apply Hf1.
  - intros E. apply Hy1 in E as [_ Hy].
    apply (OccursAny_extend _ _ pre post) in Hy.
    destruct (JS.some (fun fb => JS.includes
                                   (JS.toLowerCase (pre ++ h ++ post)) fb)
                FACEBOOK_DOMAINS) eqn:Ef.
    + left. apply Hf2. now apply some_includes_iff.
    + right. apply Hy2. split; [|assumption].
      intros H. apply some_includes_iff in H. congruence.
  - intros E. apply Hl1. intros Hp. apply Hl2 in E. apply E.
    now apply OccursAny_extend.
Qed.

End ClassifierMore.

Lemma platform_match_survives_extension_witness :
  determineWebsiteType Demo.URL_hostname (Some "https://webfb.com.example/x")
  = facebook.
Proof.
  apply (platform_match_survives_extension Demo.URL_hostname
           "https://fb.com" "https://webfb.com.example/x" "fb.com" "web"
           ".example" eq_refl eq_refl eq_refl).
  reflexivity.
Defined.

(** ** Social profiles *)

Lemma find_app {A} (p : A -> bool) (l1 l2 : list A) :
  find p (l1 ++ l2)
  = match find p l1 with
    | Some x => Some x
    | None => find p l2
    end.
Proof.
  induction l1 as [|x l1 IH]; simpl; [reflexivity|].
  now destruct (p x).
Qed.

Lemma findLast_cons {A} (p : A -> bool) (x : A) (xs : list A) :
  findLast p (x :: xs)
  = match findLast p xs with
    | Some y => Some y
    | None => if p x then Some x else None
    end.
Proof. unfold findLast. simpl. rewrite find_app. simpl. now destruct (p x). Qed.

Section SocialProfiles.
Variable URL_hostname : string -> option string.

Lemma fold_left_pointwise {A B} (f g : A -> B -> A) (l : list B) (a : A) :
  (forall x y, f x y = g x y) -> fold_left f l a = fold_left g l a.
Proof.
  intros H. revert a. induction l as [|y l IH]; intros a; simpl;
    [reflexivity|]. now rewrite H, IH.
Qed.

Lemma extractSocialProfiles_fold (urls : list string) :
  extractSocialProfiles URL_hostname urls
  = fold_left (profileStep URL_hostname) urls no_profiles.
Proof.
  unfold extractSocialProfiles. apply fold_left_pointwise.
  intros acc u. unfold profileStep, slotOf.
  destruct (URL_hostname u) as [h|]; [|reflexivity]. cbv zeta.
  repeat match goal with
         | |- context [if ?b then _ else _] => destruct b
         end; reflexivity.
Qed.

Lemma inSlot_some (s s' : Slot) (u : string) :
  slotOf URL_hostname u = Some s' -> inSlot URL_hostname s u = Slot_eqb s s'.
Proof. intros H. unfold inSlot. now rewrite H. Qed.

Lemma inSlot_none (s : Slot) (u : string) :
  slotOf URL_hostname u = None -> inSlot URL_hostname s u = false.
Proof. intros H. unfold inSlot. now rewrite H. Qed.

Lemma fold_step_fields (urls : list string) (acc : SocialProfiles) :
  let r := fold_left (profileStep URL_hostname) urls acc in
  sp_facebook r
  = match findLast (inSlot URL_hostname SlotFacebook) urls with
    | Some u => Some u
    | None => sp_facebook acc
    end
  /\ sp_yelp r
     = match findLast (inSlot URL_hostname SlotYelp) urls with
       | Some u => Some u
       | None => sp_yelp acc
       end
  /\ sp_instagram r
     = match findLast (inSlot URL_hostname SlotInstagram) urls with
       | Some u => Some u
       | None => sp_instagram acc
       end
  /\ sp_other r
     = match filter (inSlot URL_hostname SlotOther) urls with
       | [] => sp_other acc
       | new =>
           Some ((match sp_other acc with Some o => o | None => [] end)
                 ++ new)%list
       end.
Proof.
  revert acc. induction urls as [|u urls IH]; intros acc.
  - simpl. auto.
  - cbv zeta. simpl fold_left.
    destruct (IH (profileStep URL_hostname acc u)) as (Hf & Hy & Hi & Ho).
    rewrite Hf, Hy, Hi, Ho. clear IH Hf Hy Hi Ho.
    rewrite !findLast_cons. simpl filter. unfold profileStep.
    destruct (slotOf URL_hostname u) as [sl|] eqn:Eu.
    + rewrite !(inSlot_some _ _ _ Eu).
      destruct sl; simpl; repeat split;
        repeat match goal with
               | |- context [match findLast ?p ?l with _ => _ end] =>
                   destruct (findLast p l)
               | |- context [match filter ?p ?l with _ => _ end] =>
                   destruct (filter p l)
               end;
        simpl; rewrite <- ?app_assoc; reflexivity.
    + rewrite !(inSlot_none _ _ Eu).
      repeat split;
        repeat match goal with
               | |- context [match findLast ?p ?l with _ => _ end] =>
                   destruct (findLast p l)
               | |- context [match filter ?p ?l with _ => _ end] =>
                   destruct (filter p l)
               end;
        reflexivity.
Qed.

(** X2.  [extractSocialProfiles] on any list of addresses: an address
    that does not parse is skipped; each of the Facebook, Yelp and
    Instagram slots holds the last address of its kind, or nothing; the
    overflow list holds the remaining parsed addresses in input order,
    with repetitions, and is absent, not empty, when there are none. *)
Theorem extractSocialProfiles_spec :
  forall urls : list string,
    let r := extractSocialProfiles URL_hostname urls in
    sp_facebook r = findLast (inSlot URL_hostname SlotFacebook) urls
    /\ sp_yelp r = findLast (inSlot URL_hostname SlotYelp) urls
    /\ sp_instagram r = findLast (inSlot URL_hostname SlotInstagram) urls
    /\ sp_other r
       = match filter (inSlot URL_hostname SlotOther) urls with
         | [] => None
         | others => Some others
         end
    /\ sp_other r <> Some []
    /\ (forall u, URL_hostname u = None ->
          extractSocialProfiles URL_hostname [u] = no_profiles).
Proof.
  intros urls r. subst r. rewrite extractSocialProfiles_fold.
  destruct (fold_step_fields urls no_profiles) as (Hf & Hy & Hi & Ho).
  cbv zeta in Hf, Hy, Hi, Ho.
  change (sp_facebook no_profiles) with (@None string) in Hf.
  change (sp_yelp no_profiles) with (@None string) in Hy.
  change (sp_instagram no_profiles) with (@None string) in Hi.
  change (sp_other no_profiles) with (@None (list string)) in Ho.
  cbn [app] in Ho.
  split; [rewrite Hf;
          now destruct (findLast (inSlot URL_hostname SlotFacebook) urls)|].
  split; [rewrite Hy;
          now destruct (findLast (inSlot URL_hostname SlotYelp) urls)|].
  split; [rewrite Hi;
          now destruct (findLast (inSlot URL_hostname SlotInstagram) urls)|].
  split; [exact Ho|].
  split; [rewrite Ho;
          destruct (filter (inSlot URL_hostname SlotOther) urls);
          discriminate|].
  intros u Hu. unfold extractSocialProfiles. simpl. now rewrite Hu.
Qed.

End SocialProfiles.

Lemma extractSocialProfiles_spec_witness :
  let urls :=
    [ "https://fb.com/old"; "not a url"; "https://blog.example/a";
      "https://www.facebook.com/new"; "https://blog.example/a" ] in
  let r := extractSocialProfiles Demo.URL_hostname urls in
  sp_facebook r = Some "https://www.facebook.com/new"
  /\ sp_other r = Some ["https://blog.example/a"; "https://blog.example/a"]
  /\ extractSocialProfiles Demo.URL_hostname ["not a url"] = no_profiles.
Proof.
  intros urls r.
  destruct (extractSocialProfiles_spec Demo.URL_hostname urls)
    as (Hf & _ & _ & Ho & _ & Hskip).
  fold r in Hf, Ho.
  split; [rewrite Hf; reflexivity|].
  split; [rewrite Ho; reflexivity|].
  apply Hskip. reflexivity.
Defined.

(** X3.  The two classifiers agree on a non-empty address: it is a
    Facebook website exactly when it fills the Facebook profile slot, a
    Yelp website exactly when it fills the Yelp slot, and it has website
    type [none] exactly when it fills no slot at all; the website types
    [other] and [legitimate] are the addresses that go to the Instagram
    slot or to the overflow list. *)
Theorem classifiers_agree :
  forall (URL_hostname : string -> option string) (c : ascii) (u : string),
    let a := String c u in
    let t := determineWebsiteType URL_hostname (Some a) in
    let p := extractSocialProfiles URL_hostname [a] in
    (t = facebook <-> sp_facebook p = Some a)
    /\ (t = yelp <-> sp_yelp p = Some a)
    /\ (t = none <-> p = no_profiles)
    /\ (t = other \/ t = legitimate
        <-> sp_instagram p = Some a \/ sp_other p = Some [a]).
Proof.
  intros URL_hostname c u a t p. subst t p.
  unfold determineWebsiteType, extractSocialProfiles. subst a.
  cbn [JS.truthy negb fold_left].
  destruct (URL_hostname (String c u)) as [h|].
  - cbv zeta.
    destruct (JS.some _ FACEBOOK_DOMAINS);
      [|destruct (JS.some _ YELP_DOMAINS);
        [|destruct (JS.some _ PLATFORM_DOMAINS);
          destruct (JS.includes _ "instagram.com")]];
      cbn [sp_facebook sp_yelp sp_instagram sp_other no_profiles app];
      repeat split; intros H; try discriminate; try reflexivity;
      try (destruct H; discriminate); auto.
  - cbn [sp_facebook sp_yelp sp_instagram sp_other no_profiles].
    repeat split; intros H; try discriminate; try reflexivity;
      try (destruct H; discriminate).
Qed.

(** ** More on the radius tiers and the request *)


Lemma categoriesOf_cases (category : option string) :
  (ResultsList.categoriesOf category = None
   /\ (category = None \/ category = Some "" \/ category = Some "all"))
  \/ exists c,
       category = Some c /\ c <> "" /\ c <> "all"
       /\ ResultsList.categoriesOf category = Some [c].
Proof.
  unfold ResultsList.categoriesOf.
  destruct category as [[|a c]|]; [left; auto | | left; auto].
  cbn [JS.truthy andb].
  destruct (String.eqb (String a c) "all") eqn:E.
  - left. apply String.eqb_eq in E. rewrite E. auto.
  - right. exists (String a c). apply String.eqb_neq in E.
    repeat split; [discriminate | assumption].
Qed.

Lemma searchRequest_single (loc : Location) (radius : Q) (a : ascii)
    (c : string) :
  searchRequest loc radius (Some [String a c])
  = {| rq_location := loc; rq_radius := radius;
       rq_type := Some (String a c); rq_keyword := None |}.
Proof. reflexivity. Qed.

(** X5.  The request of a tier: one category is sent as the type,
    several are sent as one keyword joined by spaces, and a non-empty
    type never comes with a keyword.  The results list passes at most one
    category, never "all" and never an empty one, so its searches are
    always by type or unrestricted, never by keyword. *)
Theorem searchRequest_type_or_keyword :
  forall (loc : Location) (radius : Q),
    (forall cats,
        let rq := searchRequest loc radius cats in
        rq_location rq = loc /\ rq_radius rq = radius
        /\ (JS.truthy (rq_type rq) = true -> rq_keyword rq = None)
        /\ (forall k, rq_keyword rq = Some k ->
              exists cs, cats = Some cs /\ cs <> [] /\ k = JS.join " " cs))
    /\ (forall c1 c2 cs,
          let rq := searchRequest loc radius (Some (c1 :: c2 :: cs)) in
          rq_type rq = None
          /\ rq_keyword rq = Some (JS.join " " (c1 :: c2 :: cs)))
    /\ (forall category,
          let rq :=
            searchRequest loc radius (ResultsList.categoriesOf category) in
          rq_keyword rq = None
          /\ rq_type rq <> Some "all"
          /\ rq_type rq <> Some ""
          /\ (forall c, category = Some c -> c <> "" -> c <> "all" ->
                rq_type rq = Some c)).
Proof.
  intros loc radius. split; [|split].
  - intros cats rq. subst rq. unfold searchRequest.
    destruct cats as [[|c [|c' cs]]|]; simpl; repeat split;
      try discriminate.
    + destruct c; simpl; [discriminate | reflexivity].
    + intros k H. destruct c; simpl in H; [|discriminate].
      injection H as <-. exists [""]. repeat split. discriminate.
    + intros k H. injection H as <-. exists (c :: c' :: cs).
      repeat split. discriminate.
  - intros c1 c2 cs rq. split; reflexivity.
  - intros category rq. subst rq.
    destruct (categoriesOf_cases category)
      as [[-> Hc] | (c & -> & Hne & Hall & ->)].
    + cbn. repeat split; try discriminate.
      intros c -> Hne Hall. destruct Hc as [H|[H|H]]; congruence.
    + destruct c as [|a c]; [congruence|]. rewrite searchRequest_single.
      cbn [rq_keyword rq_type]. repeat split; try congruence.
Qed.

Lemma searchRequest_type_or_keyword_witness :
  searchRequest Demo.here 3000
    (ResultsList.categoriesOf (Some "cafe"))
  = {| rq_location := Demo.here; rq_radius := 3000;
       rq_type := Some "cafe"; rq_keyword := None |}
  /\ rq_keyword (searchRequest Demo.here 3000 (Some ["cafe"; "bar"]))
     = Some "cafe bar".
Proof.
  destruct (searchRequest_type_or_keyword Demo.here 3000) as (_ & Hk & Hc).
  destruct (Hc (Some "cafe")) as (Hkw & _ & _ & Hty).
  specialize (Hty "cafe" eq_refl).
  split; [reflexivity|].
  destruct (Hk "cafe" "bar" []) as [_ H]. rewrite H. reflexivity.
Defined.

(** ** More on the deduplication map *)

Lemma addPlace_keys (m : PlaceMap.t) (place : PlaceResult) (k : string) :
  In k (PlaceMap.keys (addPlace m place))
  <-> In k (PlaceMap.keys m) \/ (k <> "" /\ place_id place = Some k).
Proof.
  destruct (addPlace_cases m place) as [E | (pid & Hpid & Hne & Hfresh & E)].
  - rewrite E. split; [auto|]. intros [H | [Hne Hk]]; [assumption|].
    (* the place was not added although it has the identifier [k] *)
    unfold addPlace in E. rewrite Hk in E.
    destruct k as [|c k]; [congruence|]. simpl in E.
    destruct (PlaceMap.has m (String c k)) eqn:Eh; simpl in E.
    + now apply has_iff.
    + rewrite set_fresh in E by assumption.
      apply (f_equal (@length _)) in E. rewrite length_app in E.
      simpl in E. lia.
  - rewrite E. unfold PlaceMap.keys. rewrite map_app, in_app_iff. simpl.
    split.
    + intros [H | [<- | []]]; [now left | right; auto].
    + intros [H | [_ H]]; [now left|]. right. left. congruence.
Qed.

Lemma addPlaces_keys (results : list PlaceResult) (m : PlaceMap.t) (k : string) :
  In k (PlaceMap.keys (addPlaces results m))
  <-> In k (PlaceMap.keys m)
      \/ (k <> "" /\ exists p, In p results /\ place_id p = Some k).
Proof.
  unfold addPlaces. revert m.
  induction results as [|p results IH]; intros m; simpl.
  - split; [auto | intros [H | (_ & q & [] & _)]; assumption].
  - rewrite IH, addPlace_keys. split.
    + intros [[H | [Hne Hp]] | (Hne & q & Hq & Hk)]; eauto 7.
    + intros [H | (Hne & q & [<- | Hq] & Hk)]; eauto 7.
Qed.

Lemma addPlace_prefix (m : PlaceMap.t) (place : PlaceResult) :
  exists suffix, addPlace m place = (m ++ suffix)%list.
Proof.
  destruct (addPlace_cases m place) as [-> | (pid & _ & _ & _ & ->)].
  - exists []. now rewrite app_nil_r.
  - eauto.
Qed.

Lemma addPlaces_prefix (results : list PlaceResult) (m : PlaceMap.t) :
  exists suffix, addPlaces results m = (m ++ suffix)%list.
Proof.
  unfold addPlaces. revert m.
  induction results as [|p results IH]; intros m; simpl.
  - exists []. now rewrite app_nil_r.
  - destruct (addPlace_prefix m p) as [s1 ->].
    destruct (IH (m ++ s1)%list) as [s2 ->].
    exists (s1 ++ s2)%list. now rewrite app_assoc.
Qed.

(** X6.  Nothing with an identifier is lost and nothing is invented: the
    keys of the map after some tiers are the keys it had and the
    non-empty identifiers of the places of those tiers; the entries it
    had stay first, in their order, with their places. *)
Theorem accumulate_keys :
  forall (tiers : list (list PlaceResult)) (m : PlaceMap.t),
    (forall k,
        In k (PlaceMap.keys (accumulate tiers m))
        <-> In k (PlaceMap.keys m)
            \/ (k <> ""
                /\ exists results p,
                     In results tiers /\ In p results /\ place_id p = Some k))
    /\ exists suffix, accumulate tiers m = (m ++ suffix)%list.
Proof.
  unfold accumulate. induction tiers as [|rs tiers IH]; intros m; simpl.
  - split.
    + intros k. split; [auto | intros [H | (_ & r & p & [] & _)]; assumption].
    + exists []. now rewrite app_nil_r.
  - destruct (IH (addPlaces rs m)) as [Hk [s2 Hs]]. split.
    + intros k. rewrite Hk, addPlaces_keys. split.
      * intros [[H | (Hne & p & Hp & E)] | (Hne & r & p & Hr & Hp & E)];
          eauto 9.
      * intros [H | (Hne & r & p & [<- | Hr] & Hp & E)]; eauto 9.
    + destruct (addPlaces_prefix rs m) as [s1 E]. rewrite Hs, E.
      exists (s1 ++ s2)%list. now rewrite app_assoc.
Qed.

(** ** When a search returns and when it rejects *)

Section SearchOutcomes.
Variable URL_hostname : string -> option string.
Variable World : Type.
Variable geocode :
  string -> World -> (option (list GeocoderResult) * GeocoderStatus) * World.
Variable nearbySearch :
  PlaceSearchRequest -> World ->
  (option (list PlaceResult) * PlacesServiceStatus) * World.
Variable getDetails :
  string -> list string -> World ->
  (option PlaceResult * PlacesServiceStatus) * World.
Variable Date_now : World -> Z * World.

Lemma mapPlaceToBusiness_rejects_inv place query w e w' :
  mapPlaceToBusiness URL_hostname World Date_now place query w = (inl e, w') ->
  Unlocated place /\ w' = w /\ exists what, e = TypeError what.
Proof.
  unfold mapPlaceToBusiness, Unlocated, Async.bind, Async.call, Async.ret,
    Async.throw.
  destruct (geometry place) as [g|] eqn:Eg.
  - destruct (g_location g) as [loc|] eqn:E.
    + destruct (Date_now w). discriminate.
    + intros H. injection H as <- <-.
      split; [right; exists g; auto | split; eauto].
  - intros H. injection H as <- <-. split; [now left | split; eauto].
Qed.

Lemma mapM_cons {A B} (f : A -> @Async.t World B) (x : A) (xs : list A)
    (w : World) :
  Async.mapM f (x :: xs) w
  = match f x w with
    | (inl e, w1) => (inl e, w1)
    | (inr y, w1) =>
        match Async.mapM f xs w1 with
        | (inl e, w2) => (inl e, w2)
        | (inr ys, w2) => (inr (y :: ys), w2)
        end
    end.
Proof.
  simpl. unfold Async.bind at 1. destruct (f x w) as [[e|y] w1];
    [reflexivity|].
  unfold Async.bind, Async.ret.
  destruct (Async.mapM f xs w1) as [[e|ys] w2]; reflexivity.
Qed.

(** [map] over the detailed places: the first place that cannot be mapped
    aborts the rest. *)
Lemma mapM_classify_outcome (query : string) (places : list PlaceResult)
    (w : World) :
  (Forall (fun p => ~ Unlocated p) places
   /\ exists mapped w',
        Async.mapM (fun p => mapPlaceToBusiness URL_hostname World Date_now p query)
          places w = (inr mapped, w'))
  \/ (Exists Unlocated places
      /\ exists what w',
           Async.mapM
             (fun p => mapPlaceToBusiness URL_hostname World Date_now p query)
             places w = (inl (TypeError what), w')).
Proof.
  revert w. induction places as [|p places IH]; intros w.
  - left. split; [constructor|]. exists [], w. reflexivity.
  - rewrite !mapM_cons.
    destruct (mapPlaceToBusiness URL_hostname World Date_now p query w)
      as [[e|b] w1] eqn:E.
    + right. apply mapPlaceToBusiness_rejects_inv in E
        as (Hu & -> & what & ->).
      split; [now constructor | eauto].
    + assert (Hp : ~ Unlocated p).
      { intros Hu. destruct (mapPlaceToBusiness_throws URL_hostname World
                               Date_now p query w Hu) as [e' He'].
        congruence. }
      destruct (IH w1) as [[Hall (mapped & w' & Hm)]
                          | [Hex (what & w' & Hm)]]; rewrite Hm.
      * left. split; [now constructor | eauto].
      * right. split; [now apply Exists_cons_tl | eauto].
Qed.

(** The stages of a search whose geocoding succeeded. *)
Lemma searchBusinesses_stages params w first others w1 :
  geocode (p_location params) w = ((Some (first :: others), G_OK), w1) ->
  exists st w2 detailedPlaces w3,
    tierLoop World nearbySearch (gr_location first) (p_categories params)
      (limitOf params * 3) (searchRadii (p_radius params))
      (PlaceMap.empty, 0) w1 = (inr st, w2)
    /\ detailLoop World getDetails (limitOf params * 3) (fst st) [] w2
       = (inr detailedPlaces, w3)
    /\ searchBusinesses URL_hostname World geocode nearbySearch getDetails
         Date_now params w
       = match Async.mapM
                 (fun place =>
                    mapPlaceToBusiness URL_hostname World Date_now place
                      (p_location params)) detailedPlaces w3
         with
         | (inl e, w4) => (inl e, w4)
         | (inr mapped, w4) =>
             (inr (paginate (fst st)
                     (filter (keepBusiness (p_websiteType params)
                                (p_excludeWebsiteTypes params)) mapped)
                     (skipOf params) (limitOf params)), w4)
         end.
Proof.
  intros Hg.
  destruct (tierLoop_returns World nearbySearch (gr_location first)
              (p_categories params) (limitOf params * 3)
              (searchRadii (p_radius params)) (PlaceMap.empty, 0) w1)
    as (st & w2 & Ht).
  destruct (detailLoop_returns World getDetails (limitOf params * 3) (fst st)
              [] w2) as (detailed & w3 & Hd).
  exists st, w2, detailed, w3. split; [exact Ht|]. split; [exact Hd|].
  unfold searchBusinesses. unfold Async.bind at 1.
  rewrite (geocodePromise_OK _ _ _ _ _ _ Hg).
  unfold Async.bind at 1. rewrite Ht.
  unfold Async.bind at 1. rewrite Hd.
  unfold Async.bind at 1.
  destruct (Async.mapM _ detailed w3) as [[e|mapped] w4]; reflexivity.
Qed.

Lemma geocode_answers (address : string) (w : World) :
  (exists r status w1,
      geocode address w = ((r, status), w1)
      /\ (status <> G_OK \/ r = None))
  \/ (exists w1, geocode address w = ((Some [], G_OK), w1))
  \/ (exists first others w1,
        geocode address w = ((Some (first :: others), G_OK), w1)).
Proof.
  destruct (geocode address w) as [[r status] w1].
  destruct r as [rs|]; [|left; exists None, status, w1; auto].
  destruct status;
    try (left; exists (Some rs); eexists; exists w1; split;
         [reflexivity | left; discriminate]).
  destruct rs as [|first others]; [right; left; eauto | right; right; eauto].
Qed.

(** X7.  A search rejects for three reasons only: the geocoding did not
    answer OK with a list (its error, after that one call); the geocoding
    answered OK with an empty list (a [TypeError]); or the detail service
    answered some fetch with a record that has no geometry or no location
    (a [TypeError]).  Failed nearby searches and failed detail fetches
    never reject it. *)
Theorem searchBusinesses_rejects_only :
  forall params w e w',
    searchBusinesses URL_hostname World geocode nearbySearch getDetails
      Date_now params w = (inl e, w') ->
    (exists r status,
        geocode (p_location params) w = ((r, status), w')
        /\ (status <> G_OK \/ r = None)
        /\ e = Error ("Geocoding failed: " ++ GeocoderStatus_to_string status))
    \/ (geocode (p_location params) w = ((Some [], G_OK), w')
        /\ e = TypeError "geocodeResult[0]")
    \/ (exists placeId d what,
          Fetched getDetails placeId d /\ Unlocated d /\ e = TypeError what).
Proof.
  intros params w e w' H.
  destruct (geocode_answers (p_location params) w)
    as [(r & status & w1 & Hg & Hbad)
       | [(w1 & Hg) | (first & others & w1 & Hg)]].
  - left. rewrite (searchBusinesses_geocode_rejects _ _ _ _ _ _ _ _ _ _ _
                     Hg Hbad) in H.
    injection H as <- <-. eauto.
  - right. left. unfold searchBusinesses in H. unfold Async.bind at 1 in H.
    rewrite (geocodePromise_OK _ _ _ _ _ _ Hg) in H.
    unfold Async.throw in H. injection H as <- <-. auto.
  - right. right.
    destruct (searchBusinesses_stages params w first others w1 Hg)
      as (st & w2 & detailed & w3 & _ & Hd & Hrun).
    rewrite Hrun in H.
    destruct (mapM_classify_outcome (p_location params) detailed w3)
      as [[_ (mapped & w4 & Hm)] | [Hex (what & w4 & Hm)]];
      rewrite Hm in H; [discriminate|].
    injection H as <- <-.
    apply detailLoop_trace in Hd as (fetched & -> & _ & Hall).
    simpl in Hex. apply Exists_exists in Hex as (d & Hin & Hu).
    apply in_map_iff in Hin as ([pid d'] & <- & Hin).
    rewrite Forall_forall in Hall. specialize (Hall _ Hin).
    exists pid, d', what. auto.
Qed.

(** X8.  One detail record without a location rejects the whole search:
    when the detailed list of a search holds a place that has no geometry
    or no location, the search rejects with a [TypeError] and returns no
    business at all. *)
Theorem unlocated_place_rejects_search :
  forall params w first others w1 st w2 detailedPlaces w3 place,
    geocode (p_location params) w = ((Some (first :: others), G_OK), w1) ->
    tierLoop World nearbySearch (gr_location first) (p_categories params)
      (limitOf params * 3) (searchRadii (p_radius params))
      (PlaceMap.empty, 0) w1 = (inr st, w2) ->
    detailLoop World getDetails (limitOf params * 3) (fst st) [] w2
    = (inr detailedPlaces, w3) ->
    In place detailedPlaces -> Unlocated place ->
    exists what w',
      searchBusinesses URL_hostname World geocode nearbySearch getDetails
        Date_now params w = (inl (TypeError what), w').
Proof.
  intros params w first others w1 st w2 detailed w3 place Hg Ht Hd Hin Hu.
  destruct (searchBusinesses_stages params w first others w1 Hg)
    as (st' & w2' & detailed' & w3' & Ht' & Hd' & Hrun).
  rewrite Ht in Ht'. injection Ht' as <- <-.
  rewrite Hd in Hd'. injection Hd' as <- <-.
  rewrite Hrun.
  destruct (mapM_classify_outcome (p_location params) detailed w3)
    as [[Hall _] | [_ (what & w4 & Hm)]].
  - rewrite Forall_forall in Hall. now destruct (Hall _ Hin).
  - rewrite Hm. eauto.
Qed.

(** X9.  A search returns whenever the geocoder answers OK with at least
    one result and every record the detail service answers with has a
    location, whatever the nearby searches and the other detail fetches
    answer. *)
Theorem searchBusinesses_returns :
  forall params w first others w1,
    geocode (p_location params) w = ((Some (first :: others), G_OK), w1) ->
    (forall placeId d, Fetched getDetails placeId d -> ~ Unlocated d) ->
    exists r w',
      searchBusinesses URL_hostname World geocode nearbySearch getDetails
        Date_now params w = (inr r, w').
Proof.
  intros params w first others w1 Hg Hloc.
  destruct (searchBusinesses_stages params w first others w1 Hg)
    as (st & w2 & detailed & w3 & _ & Hd & Hrun).
  rewrite Hrun.
  destruct (mapM_classify_outcome (p_location params) detailed w3)
    as [[_ (mapped & w4 & Hm)] | [Hex _]].
  - rewrite Hm. eauto.
  - exfalso. apply detailLoop_trace in Hd as (fetched & -> & _ & Hall).
    simpl in Hex. apply Exists_exists in Hex as (d & Hin & Hu).
    apply in_map_iff in Hin as ([pid d'] & <- & Hin).
    rewrite Forall_forall in Hall. apply (Hloc pid d' (Hall _ Hin) Hu).
Qed.

End SearchOutcomes.

Lemma searchBusinesses_rejects_only_witness :
  exists e w',
    Demo.run Demo2.script_empty_geocode (Demo.params 3000 None None None) []
    = (inl e, w')
    /\ e = TypeError "geocodeResult[0]"
    /\ w' = [Demo.CallGeocode "Springfield"].
Proof.
  assert (H : Demo.run Demo2.script_empty_geocode
                (Demo.params 3000 None None None) []
              = (inl (TypeError "geocodeResult[0]"),
                 [Demo.CallGeocode "Springfield"]))
    by (vm_compute; reflexivity).
  pose proof (searchBusinesses_rejects_only Demo.URL_hostname Demo.World
                (Demo.geocode Demo2.script_empty_geocode)
                (Demo.nearbySearch Demo2.script_empty_geocode)
                (Demo.getDetails Demo2.script_empty_geocode) Demo.Date_now
                _ _ _ _ H) as Hwhy.
  exists (TypeError "geocodeResult[0]"), [Demo.CallGeocode "Springfield"].
  split; [exact H|].
  destruct Hwhy as [(r & status & Hg & _ & He)
                   | [[_ He] | (pid & d & what & _ & _ & He)]];
    [discriminate He | auto | auto].
Defined.

Lemma unlocated_place_rejects_search_witness :
  exists what w',
    Demo.run Demo2.script_no_geometry (Demo.params 1000 None None None) []
    = (inl (TypeError what), w').
Proof.
  eapply (unlocated_place_rejects_search Demo.URL_hostname Demo.World
            (Demo.geocode Demo2.script_no_geometry)
            (Demo.nearbySearch Demo2.script_no_geometry)
            (Demo.getDetails Demo2.script_no_geometry) Demo.Date_now
            (Demo.params 1000 None None None) []
            _ _ _ _ _ _ _ (Demo2.detail_nowhere "b")).
  - reflexivity.
  - vm_compute. reflexivity.
  - vm_compute. reflexivity.
  - simpl. right. left. reflexivity.
  - left. reflexivity.
Defined.

Lemma script_echo_located :
  forall placeId d,
    Fetched (Demo.getDetails Demo.script_echo) placeId d -> ~ Unlocated d.
Proof.
  intros placeId d (w & w' & H). unfold Demo.getDetails in H. simpl in H.
  injection H as <- _. intros [Hu | (g & Hg & Hl)].
  - discriminate Hu.
  - simpl in Hg. injection Hg as <-. discriminate Hl.
Qed.

Lemma searchBusinesses_returns_witness :
  exists r w',
    Demo.run Demo.script_echo (Demo.params 1000 None None None) []
    = (inr r, w').
Proof.
  apply (searchBusinesses_returns Demo.URL_hostname Demo.World
           (Demo.geocode Demo.script_echo) (Demo.nearbySearch Demo.script_echo)
           (Demo.getDetails Demo.script_echo) Demo.Date_now
           (Demo.params 1000 None None None) []
           {| gr_location := Demo.here |} []
           [Demo.CallGeocode "Springfield"] eq_refl script_echo_located).
Defined.

(** ** Limits of a search *)

Section SearchLimits.
Variable URL_hostname : string -> option string.
Variable World : Type.
Variable geocode :
  string -> World -> (option (list GeocoderResult) * GeocoderStatus) * World.
Variable nearbySearch :
  PlaceSearchRequest -> World ->
  (option (list PlaceResult) * PlacesServiceStatus) * World.
Variable getDetails :
  string -> list string -> World ->
  (option PlaceResult * PlacesServiceStatus) * World.
Variable Date_now : World -> Z * World.

Lemma slice_nil {A} (start end_ : Z) : JS.slice (@nil A) start end_ = [].
Proof. unfold JS.slice. now rewrite skipn_nil, firstn_nil. Qed.

(** X10.  With a limit of zero or less the search geocodes and does
    nothing else: no nearby search, no detail fetch, no clock reading; it
    returns no business and a total count of zero. *)
Theorem nonpositive_limit_searches_nothing :
  forall params w first others w1,
    limitOf params <= 0 ->
    geocode (p_location params) w = ((Some (first :: others), G_OK), w1) ->
    searchBusinesses URL_hostname World geocode nearbySearch getDetails
      Date_now params w
    = (inr {| businesses := [];
              totalCount := 0;
              hasMore := 0 >? skipOf params + limitOf params |}, w1).
Proof.
  intros params w first others w1 Hl Hg.
  destruct (searchBusinesses_stages URL_hostname World geocode nearbySearch
              getDetails Date_now params w first others w1 Hg)
    as (st & w2 & detailed & w3 & Ht & Hd & Hrun).
  rewrite tierLoop_stops in Ht by (simpl; unfold PlaceMap.size; simpl; lia).
  injection Ht as <- <-. simpl in Hd. unfold Async.ret in Hd.
  injection Hd as <- <-. rewrite Hrun. simpl.
  unfold Async.ret, paginate. simpl. now rewrite slice_nil.
Qed.

(** X11.  A search classifies at most [limit * 3] places, so the filtered
    list is never longer than that: [hasMore] is false as soon as
    [skip + limit] reaches [limit * 3], and with a fixed page size the
    third page is always the last. *)
Theorem at_most_three_pages :
  forall params w r w',
    0 <= limitOf params ->
    searchBusinesses URL_hostname World geocode nearbySearch getDetails
      Date_now params w = (inr r, w') ->
    (hasMore r = true -> skipOf params + limitOf params < limitOf params * 3)
    /\ (2 * limitOf params <= skipOf params -> hasMore r = false)
    /\ exists filtered,
         Z.of_nat (length filtered) <= limitOf params * 3
         /\ businesses r
            = JS.slice filtered (skipOf params)
                (skipOf params + limitOf params).
Proof.
  intros params w r w' Hl Hrun.
  apply searchBusinesses_inv in Hrun
    as (first & others & w1 & st & w2 & detailed & w3 & mapped & _ & _ & Hd
        & Hm & ->).
  apply detailLoop_bound in Hd.
  change (Z.of_nat (length (@nil PlaceResult))) with 0 in Hd.
  rewrite Z.max_r in Hd by lia.
  apply mapM_inv in Hm. apply Forall2_length in Hm.
  set (filtered := filter _ mapped).
  assert (Hf : Z.of_nat (length filtered) <= limitOf params * 3).
  { pose proof (filter_length_le
                  (keepBusiness (p_websiteType params)
                     (p_excludeWebsiteTypes params)) mapped).
    subst filtered. apply Nat2Z.inj_le in H. lia. }
  assert (Hmore : hasMore (paginate (fst st) filtered (skipOf params)
                             (limitOf params)) = true ->
                  skipOf params + limitOf params < limitOf params * 3).
  { simpl. rewrite Z.gtb_gt. lia. }
  split; [exact Hmore|]. split.
  - intros Hs. apply not_true_is_false. intros E. apply Hmore in E. lia.
  - exists filtered. split; [exact Hf | reflexivity].
Qed.

End SearchLimits.

Lemma nonpositive_limit_searches_nothing_witness :
  Demo.run Demo.script_echo (Demo.params 1000 None (Some 0) None) []
  = (inr {| businesses := []; totalCount := 0; hasMore := false |},
     [Demo.CallGeocode "Springfield"]).
Proof.
  apply (nonpositive_limit_searches_nothing Demo.URL_hostname Demo.World
           (Demo.geocode Demo.script_echo) (Demo.nearbySearch Demo.script_echo)
           (Demo.getDetails Demo.script_echo) Demo.Date_now
           (Demo.params 1000 None (Some 0) None) []
           {| gr_location := Demo.here |} []).
  - vm_compute. discriminate.
  - reflexivity.
Defined.

Lemma at_most_three_pages_witness :
  exists r w',
    Demo.run Demo2.script_five (Demo.params 1000 None (Some 1) (Some 2)) []
    = (inr r, w')
    /\ totalCount r = 5 /\ length (businesses r) = 1%nat
    /\ hasMore r = false.
Proof.
  assert (H : exists r w',
             Demo.run Demo2.script_five
               (Demo.params 1000 None (Some 1) (Some 2)) [] = (inr r, w')
             /\ totalCount r = 5 /\ length (businesses r) = 1%nat).
  { do 2 eexists. split; [vm_compute; reflexivity|]. split; reflexivity. }
  destruct H as (r & w' & Hrun & Hc & Hb).
  exists r, w'. split; [exact Hrun|]. split; [exact Hc|]. split; [exact Hb|].
  destruct (at_most_three_pages Demo.URL_hostname Demo.World
              (Demo.geocode Demo2.script_five)
              (Demo.nearbySearch Demo2.script_five)
              (Demo.getDetails Demo2.script_five) Demo.Date_now
              (Demo.params 1000 None (Some 1) (Some 2)) [] r w')
    as (_ & Hlast & _); [vm_compute; discriminate | exact Hrun |].
  apply Hlast. vm_compute. discriminate.
Defined.

(** ** Pages *)

Lemma firstn_then_next {A} (a b : nat) (l : list A) :
  (firstn a l ++ firstn b (skipn a l))%list = firstn (a + b) l.
Proof.
  revert l. induction a as [|a IH]; intros l; [reflexivity|].
  destruct l as [|x l]; simpl.
  - now rewrite firstn_nil.
  - now rewrite IH.
Qed.

Lemma slice_then_next {A} (l : list A) (skip l1 l2 : Z) :
  0 <= skip -> 0 <= l1 -> 0 <= l2 ->
  (JS.slice l skip (skip + l1) ++ JS.slice l (skip + l1) (skip + l1 + l2))%list
  = JS.slice l skip (skip + (l1 + l2)).
Proof.
  intros Hs H1 H2. rewrite !slice_nonneg by lia.
  replace (skip + l1 - skip) with l1 by lia.
  replace (skip + l1 + l2 - (skip + l1)) with l2 by lia.
  replace (skip + (l1 + l2) - skip) with (l1 + l2) by lia.
  rewrite Z2Nat.inj_add by lia. rewrite (Nat.add_comm (Z.to_nat skip)).
  rewrite <- skipn_skipn. rewrite Z2Nat.inj_add by lia.
  apply firstn_then_next.
Qed.

(** X12.  Consecutive pages fit together: the page at [skip] of size
    [l1] followed by the page at [skip + l1] of size [l2] is the page at
    [skip] of size [l1 + l2] of the same filtered list. *)
Theorem pages_compose :
  forall (allPlaces : PlaceMap.t) (filtered : list Business) (skip l1 l2 : Z),
    0 <= skip -> 0 <= l1 -> 0 <= l2 ->
    (businesses (paginate allPlaces filtered skip l1)
     ++ businesses (paginate allPlaces filtered (skip + l1) l2))%list
    = businesses (paginate allPlaces filtered skip (l1 + l2)).
Proof.
  intros allPlaces filtered skip l1 l2 Hs H1 H2. simpl.
  now apply slice_then_next.
Qed.

Lemma pages_compose_witness :
  let b1 := Demo.business "OPERATIONAL" none in
  let b2 := Demo.business "OPERATIONAL" facebook in
  let b3 := Demo.business "OPERATIONAL" yelp in
  (businesses (paginate [] [b1; b2; b3] 0 2)
   ++ businesses (paginate [] [b1; b2; b3] 2 2))%list
  = [b1; b2; b3].
Proof.
  intros b1 b2 b3.
  exact (pages_compose [] [b1; b2; b3] 0 2 2 ltac:(lia) ltac:(lia)
           ltac:(lia)).
Defined.

Lemma paginate_full_or_last allPlaces (filtered : list Business) skip limit :
  0 <= skip -> 0 <= limit ->
  let r := paginate allPlaces filtered skip limit in
  (hasMore r = true -> Z.of_nat (length (businesses r)) = limit)
  /\ (hasMore r = false -> businesses r = skipn (Z.to_nat skip) filtered).
Proof.
  intros Hs Hl r. subst r. rewrite paginate_businesses by assumption.
  simpl hasMore. split.
  - rewrite Z.gtb_gt. intros H.
    rewrite length_firstn, length_skipn. lia.
  - intros H. apply firstn_all2. rewrite length_skipn.
    destruct (Z.gtb_spec (Z.of_nat (length filtered)) (skip + limit));
      [discriminate | lia].
Qed.

(** X13.  What [hasMore] tells: when it is set the page is full, it has
    exactly [limit] businesses; when it is not set the page runs to the
    end of the filtered list, so nothing lies beyond it. *)
Theorem hasMore_meaning :
  forall (allPlaces : PlaceMap.t) (filtered : list Business) (skip limit : Z),
    0 <= skip -> 0 <= limit ->
    let r := paginate allPlaces filtered skip limit in
    (hasMore r = true -> Z.of_nat (length (businesses r)) = limit)
    /\ (hasMore r = false ->
        businesses r = skipn (Z.to_nat skip) filtered
        /\ (firstn (Z.to_nat skip) filtered ++ businesses r)%list = filtered).
Proof.
  intros allPlaces filtered skip limit Hs Hl r.
  destruct (paginate_full_or_last allPlaces filtered skip limit Hs Hl)
    as [Hfull Hlast].
  split; [exact Hfull|]. intros H. specialize (Hlast H). fold r in Hlast.
  split; [exact Hlast|]. rewrite Hlast. apply firstn_skipn.
Qed.

Lemma hasMore_meaning_witness :
  let b := Demo.business "OPERATIONAL" none in
  length (businesses (paginate [] [b; b; b; b; b] 0 2)) = 2%nat
  /\ businesses (paginate [] [b; b; b; b; b] 4 2) = [b].
Proof.
  intros b.
  destruct (hasMore_meaning [] [b; b; b; b; b] 0 2) as [Hfull _]; [lia..|].
  destruct (hasMore_meaning [] [b; b; b; b; b] 4 2) as [_ Hlast]; [lia..|].
  split.
  - apply Nat2Z.inj. apply Hfull. reflexivity.
  - now destruct (Hlast eq_refl) as [-> _].
Defined.

(** ** The results list *)

(** X14.  "Load More" assembles a prefix: after the first fetch and [n]
    further pages of searches that find the same filtered list, the list
    shown is its first [20 * (n + 1)] businesses, in order and without a
    gap or a repetition; the page counter is [n + 1]; and the button is
    offered exactly when the filtered list is longer than what is
    shown. *)
Theorem loadMore_assembles_prefix :
  forall (allPlaces : PlaceMap.t) (filtered : list Business) (n : nat),
    let st := ResultsList.loaded allPlaces filtered n in
    let shown := ResultsList.ITEMS_PER_PAGE * (Z.of_nat n + 1) in
    ResultsList.page st = Z.of_nat n + 1
    /\ ResultsList.allBusinesses st = firstn (Z.to_nat shown) filtered
    /\ ResultsList.results st
       = Some {| businesses := ResultsList.allBusinesses st;
                 totalCount := PlaceMap.size allPlaces;
                 hasMore := Z.of_nat (length filtered) >? shown |}.
Proof.
  intros allPlaces filtered n. cbv zeta.
  induction n as [|n (Hp & Ha & Hr)].
  - simpl ResultsList.loaded. unfold ResultsList.afterFetch.
    cbn [ResultsList.page ResultsList.allBusinesses ResultsList.results].
    split; [reflexivity|].
    assert (Hb : businesses (paginate allPlaces filtered 0
                               ResultsList.ITEMS_PER_PAGE)
                 = firstn (Z.to_nat (ResultsList.ITEMS_PER_PAGE * (0 + 1)))
                     filtered).
    { rewrite paginate_businesses by (unfold ResultsList.ITEMS_PER_PAGE; lia).
      reflexivity. }
    split; [exact Hb|]. reflexivity.
  - simpl ResultsList.loaded.
    set (st := ResultsList.loaded allPlaces filtered n) in *.
    unfold ResultsList.afterLoadMore, ResultsList.offset.
    cbn [ResultsList.page ResultsList.allBusinesses ResultsList.results].
    rewrite Hp, Ha.
    assert (Hoff : (Z.of_nat n + 1) * ResultsList.ITEMS_PER_PAGE
                   = ResultsList.ITEMS_PER_PAGE * (Z.of_nat n + 1)) by lia.
    rewrite Hoff.
    set (shown := ResultsList.ITEMS_PER_PAGE * (Z.of_nat n + 1)) in *.
    assert (Hshown : 0 <= shown)
      by (subst shown; unfold ResultsList.ITEMS_PER_PAGE; lia).
    assert (Hnext : ResultsList.ITEMS_PER_PAGE * (Z.of_nat (S n) + 1)
                    = shown + ResultsList.ITEMS_PER_PAGE)
      by (subst shown; lia).
    rewrite Hnext.
    assert (Hall : (firstn (Z.to_nat shown) filtered
                    ++ businesses (paginate allPlaces filtered shown
                                     ResultsList.ITEMS_PER_PAGE))%list
                   = firstn (Z.to_nat (shown + ResultsList.ITEMS_PER_PAGE))
                       filtered).
    { rewrite paginate_businesses
        by (unfold ResultsList.ITEMS_PER_PAGE; lia).
      rewrite firstn_then_next. f_equal.
      unfold ResultsList.ITEMS_PER_PAGE. lia. }
    split; [lia|]. split; [exact Hall|].
    rewrite Hall. do 2 f_equal.
    destruct (paginate_full_or_last allPlaces filtered shown
                ResultsList.ITEMS_PER_PAGE Hshown)
      as [Hfull _]; [unfold ResultsList.ITEMS_PER_PAGE; lia|].
    cbv zeta in Hfull.
    destruct (hasMore (paginate allPlaces filtered shown
                         ResultsList.ITEMS_PER_PAGE)) eqn:E.
    + rewrite (Hfull eq_refl). simpl in E. rewrite E. reflexivity.
    + simpl in E. rewrite E. reflexivity.
Qed.

(** ** The badges of a card *)

Lemma getImprovementBadges_keys (business : Business) :
  map ResultsList.b_key (ResultsList.getImprovementBadges business)
  = ((if needsPhone (improvements business) then [Some "phone"] else [])
     ++ (if needsPhotos (improvements business) then [Some "photos"] else [])
     ++ (if needsWebsite (improvements business) then [Some "website"]
         else []))%list.
Proof.
  unfold ResultsList.getImprovementBadges.
  destruct (needsPhone _), (needsPhotos _), (needsWebsite _); reflexivity.
Qed.

(** X15.  On the card of a business built by [mapPlaceToBusiness]: at
    most three improvement badges are shown, with distinct keys among
    "phone", "photos" and "website", so never one for social media; the
    "Needs Website" badge is shown exactly when the website type is not
    [legitimate]; whenever a website-type badge is shown the "Needs
    Website" badge is shown too; and a business without any website gets
    no website-type badge but does get "Needs Website". *)
Theorem card_badges :
  forall (URL_hostname : string -> option string) (World : Type)
         (Date_now : World -> Z * World) place query w b w',
    mapPlaceToBusiness URL_hostname World Date_now place query w
    = (inr b, w') ->
    let keys := map ResultsList.b_key (ResultsList.getImprovementBadges b) in
    (length keys <= 3)%nat
    /\ NoDup keys
    /\ (forall k, In k keys ->
          k = Some "phone" \/ k = Some "photos" \/ k = Some "website")
    /\ (In (Some "website") keys <-> websiteType b <> legitimate)
    /\ (ResultsList.WebsiteTypeBadge (websiteType b) <> None ->
        In (Some "website") keys)
    /\ (websiteType b = none ->
        ResultsList.WebsiteTypeBadge (websiteType b) = None
        /\ In (Some "website") keys).
Proof.
  intros URL_hostname World Date_now place query w b w' H keys.
  apply mapPlaceToBusiness_inv in H
    as (g & loc & _ & _ & _ & _ & Hwt & _ & _ & Himp & _).
  assert (Hw : needsWebsite (improvements b)
               = negb (WebsiteType_eqb (websiteType b) legitimate))
    by (rewrite Himp, Hwt; reflexivity).
  subst keys. rewrite getImprovementBadges_keys, Hw.
  split; [destruct (needsPhone _), (needsPhotos _), (websiteType b);
          simpl; lia|].
  split.
  { destruct (needsPhone _), (needsPhotos _), (websiteType b); simpl;
      repeat constructor; simpl; intuition discriminate. }
  split.
  { intros k. destruct (needsPhone _), (needsPhotos _), (websiteType b);
      simpl; intuition. }
  split.
  { destruct (needsPhone _), (needsPhotos _), (websiteType b); simpl;
      split; intros H; try discriminate; try congruence; intuition;
      try discriminate. }
  split.
  { destruct (needsPhone _), (needsPhotos _), (websiteType b); simpl;
      intros H; intuition. }
  intros ->. split; [reflexivity|].
  destruct (needsPhone _), (needsPhotos _); simpl; intuition.
Qed.

Lemma card_badges_witness :
  let place :=
    Demo.detail (Some "a") (Some "https://www.facebook.com/somebiz")
      (Some "555-0100") None ["cafe"] in
  exists b w',
    mapPlaceToBusiness Demo.URL_hostname Demo.World Demo.Date_now place
      "Springfield" [] = (inr b, w')
    /\ In (Some "website")
         (map ResultsList.b_key (ResultsList.getImprovementBadges b)).
Proof.
  intros place.
  destruct (mapPlaceToBusiness_returns Demo.URL_hostname Demo.World
              Demo.Date_now place "Springfield" []
              {| g_location := Some Demo.here |} Demo.here eq_refl eq_refl)
    as [b Hb].
  exists b, (snd (Demo.Date_now [])). split; [exact Hb|].
  destruct (card_badges Demo.URL_hostname Demo.World Demo.Date_now place
              "Springfield" [] b _ Hb) as (_ & _ & _ & Hweb & _).
  apply Hweb.
  apply mapPlaceToBusiness_inv in Hb
    as (_ & _ & _ & _ & _ & _ & Hwt & _).
  rewrite Hwt. discriminate.
Defined.

(** ** The older service *)

Lemma Legacy_keepBusiness_open ex (b : Business) :
  businessStatus b <> "PERMANENTLY_CLOSED" ->
  Legacy.keepBusiness ex b
  = match ex with
    | Some (t :: ts) => existsb (WebsiteType_eqb (websiteType b)) (t :: ts)
    | _ => negb (WebsiteType_eqb (websiteType b) legitimate)
    end.
Proof.
  intros H. unfold Legacy.keepBusiness.
  destruct (isPermanentlyClosed b) eqn:E; [|reflexivity].
  now apply isPermanentlyClosed_iff in E.
Qed.

(** X16.  The two filters compared on one business.  Selecting one
    website type gives the same answer in both versions: the current
    [websiteType] filter agrees with the older filter given the
    one-element list the older results list builds.  On a longer list the
    two do the opposite: the older filter keeps exactly the listed types
    of an open business, the current one drops exactly those.  Without a
    list the older filter is the current one excluding [legitimate]. *)
Theorem filters_compared :
  forall (b : Business),
    (forall w ex,
        keepBusiness (Some w) ex b = Legacy.keepBusiness (Some [w]) b)
    /\ (forall t ts,
          businessStatus b <> "PERMANENTLY_CLOSED" ->
          (Legacy.keepBusiness (Some (t :: ts)) b = true
           <-> In (websiteType b) (t :: ts))
          /\ Legacy.keepBusiness (Some (t :: ts)) b
             = negb (keepBusiness None (Some (t :: ts)) b))
    /\ Legacy.keepBusiness None b = keepBusiness None (Some [legitimate]) b
    /\ (forall ex (old : LegacyService.Business),
          LegacyService.l_businessStatus old = businessStatus b ->
          LegacyService.l_websiteType old = websiteType b ->
          LegacyService.keep ex old = Legacy.keepBusiness ex b).
Proof.
  intros b. split; [|split; [|split]].
  - intros w ex. unfold keepBusiness, Legacy.keepBusiness.
    destruct (isPermanentlyClosed b); [reflexivity|]. simpl.
    now rewrite orb_false_r.
  - intros t ts Ho. rewrite (Legacy_keepBusiness_open _ _ Ho),
      (keepBusiness_open _ _ _ Ho), negb_involutive.
    split; [apply existsb_WebsiteType | reflexivity].
  - unfold keepBusiness, Legacy.keepBusiness.
    destruct (isPermanentlyClosed b); [reflexivity|]. simpl.
    now rewrite orb_false_r.
  - intros ex old Hs Hw. unfold LegacyService.keep, Legacy.keepBusiness,
      isPermanentlyClosed. now rewrite Hs, Hw.
Qed.

Lemma filters_compared_witness :
  Legacy.keepBusiness (Some [facebook; yelp])
    (Demo.business "OPERATIONAL" yelp) = true
  /\ keepBusiness None (Some [facebook; yelp])
       (Demo.business "OPERATIONAL" yelp) = false.
Proof.
  destruct (filters_compared (Demo.business "OPERATIONAL" yelp))
    as (_ & Hlist & _).
  destruct (Hlist facebook [yelp]) as [Hin Hneg]; [discriminate|].
  assert (H : Legacy.keepBusiness (Some [facebook; yelp])
                (Demo.business "OPERATIONAL" yelp) = true)
    by (apply Hin; right; now left).
  split; [exact H|]. rewrite Hneg in H. now apply negb_true_iff in H.
Defined.

Section LegacyFacts.
Variable URL_hostname : string -> option string.
Variable World : Type.
Variable geocode :
  string -> World -> (option (list GeocoderResult) * GeocoderStatus) * World.
Variable nearbySearch :
  PlaceSearchRequest -> World ->
  (option (list PlaceResult) * PlacesServiceStatus) * World.
Variable getDetails :
  option string -> list string -> World ->
  (option PlaceResult * PlacesServiceStatus) * World.
Variable Date_now : World -> Z * World.

Lemma Legacy_getDetailsPromise_OK placeId w d w' :
  getDetails placeId LegacyService.detailFields w = ((Some d, OK), w') ->
  LegacyService.getDetailsPromise World getDetails placeId w
  = (inr (LegacyService.placeDetails d), w').
Proof.
  intros H. unfold LegacyService.getDetailsPromise, Async.bind, Async.call.
  now rewrite H.
Qed.

Lemma Legacy_getDetailsPromise_rejects placeId w r status w' :
  getDetails placeId LegacyService.detailFields w = ((r, status), w') ->
  status <> OK \/ r = None ->
  LegacyService.getDetailsPromise World getDetails placeId w
  = (inl (Error ("Place details failed: "
                 ++ PlacesServiceStatus_to_string status)), w').
Proof.
  intros H Hok. unfold LegacyService.getDetailsPromise, Async.bind, Async.call.
  rewrite H. destruct r, status; try reflexivity; destruct Hok; congruence.
Qed.

Lemma Legacy_mapPlaceToBusiness_returns place query w g loc :
  geometry place = Some g -> g_location g = Some loc ->
  exists b,
    LegacyService.mapPlaceToBusiness URL_hostname World Date_now place query w
    = (inr b, snd (Date_now w))
    /\ LegacyService.l_searchQuery b = query
    /\ LegacyService.l_category b
       = match types place with Some ts => ts | None => [] end
    /\ LegacyService.l_websiteType b
       = determineWebsiteType URL_hostname (website place)
    /\ LegacyService.l_businessStatus b = statusOf place
    /\ LegacyService.l_lastUpdated b = fst (Date_now w)
    /\ LegacyService.l_id b = place_id place.
Proof.
  intros Hg Hl.
  unfold LegacyService.mapPlaceToBusiness, Async.bind, Async.call, Async.ret.
  rewrite Hg, Hl. destruct (Date_now w) as [now w1]. simpl.
  eexists. split; [reflexivity|]. simpl. repeat split.
Qed.

Lemma Legacy_mapPlaceToBusiness_throws place query w :
  Unlocated place ->
  exists what,
    LegacyService.mapPlaceToBusiness URL_hostname World Date_now place query w
    = (inl (TypeError what), w).
Proof.
  unfold LegacyService.mapPlaceToBusiness, Async.throw.
  intros [Hg | (g & Hg & Hl)]; rewrite Hg; [|rewrite Hl]; eauto.
Qed.

(** X17.  The older [analyzeBusiness] makes one detail fetch.  When the
    fetch does not answer OK with a record it rejects with the detail
    error; when the record has no location it rejects with a [TypeError];
    otherwise it returns a business stamped after the fetch, with an empty
    search query, the website type and status of the record, and all the
    raw category tags of the record, generic ones included. *)
Theorem analyzeBusiness_spec :
  forall placeId w r status w1,
    getDetails (Some placeId) LegacyService.detailFields w
    = ((r, status), w1) ->
    let run :=
      LegacyService.analyzeBusiness URL_hostname World getDetails Date_now
        placeId w in
    (status <> OK \/ r = None ->
     run = (inl (Error ("Place details failed: "
                        ++ PlacesServiceStatus_to_string status)), w1))
    /\ (forall d,
          r = Some d -> status = OK ->
          (Unlocated d -> exists what, run = (inl (TypeError what), w1))
          /\ (forall g loc,
                geometry d = Some g -> g_location g = Some loc ->
                exists b,
                  run = (inr b, snd (Date_now w1))
                  /\ LegacyService.l_searchQuery b = ""
                  /\ LegacyService.l_category b
                     = match types d with Some ts => ts | None => [] end
                  /\ LegacyService.l_websiteType b
                     = determineWebsiteType URL_hostname (website d)
                  /\ LegacyService.l_businessStatus b = statusOf d
                  /\ LegacyService.l_lastUpdated b = fst (Date_now w1)
                  /\ LegacyService.l_id b = place_id d)).
Proof.
  intros placeId w r status w1 H run. subst run.
  unfold LegacyService.analyzeBusiness, Async.bind. split.
  - intros Hbad. now rewrite (Legacy_getDetailsPromise_rejects _ _ _ _ _ H Hbad).
  - intros d -> ->. rewrite (Legacy_getDetailsPromise_OK _ _ _ _ H). split.
    + intros Hu. apply Legacy_mapPlaceToBusiness_throws.
      destruct Hu as [Hg | (g & Hg & Hl)]; [left | right; exists g]; auto.
    + intros g loc Hg Hl.
      destruct (Legacy_mapPlaceToBusiness_returns
                  (LegacyService.placeDetails d) "" w1 g loc Hg Hl)
        as (b & Hb & Hq & Hc & Hw & Hs & Ht & Hi).
      exists b. repeat split; assumption.
Qed.

(** *** The older search *)

Lemma detailCalls_cons place rest w :
  LegacyService.detailCalls World getDetails (place :: rest) w
  = (fst (LegacyService.getDetailsPromise World getDetails (place_id place) w)
     :: fst (LegacyService.detailCalls World getDetails rest
               (snd (LegacyService.getDetailsPromise World getDetails
                       (place_id place) w))),
     snd (LegacyService.detailCalls World getDetails rest
            (snd (LegacyService.getDetailsPromise World getDetails
                    (place_id place) w)))).
Proof.
  simpl.
  destruct (LegacyService.getDetailsPromise World getDetails
              (place_id place) w) as [r w1]. simpl.
  destruct (LegacyService.detailCalls World getDetails rest w1) as [rs w2].
  reflexivity.
Qed.

(** Every place gets its call, whatever the answers. *)
Lemma detailCalls_length places w :
  length (fst (LegacyService.detailCalls World getDetails places w))
  = length places.
Proof.
  revert w. induction places as [|p places IH]; intros w; [reflexivity|].
  rewrite detailCalls_cons. simpl. now rewrite IH.
Qed.

Lemma detailCalls_errors places w e :
  In (inl e) (fst (LegacyService.detailCalls World getDetails places w)) ->
  exists status,
    e = Error ("Place details failed: "
               ++ PlacesServiceStatus_to_string status).
Proof.
  revert w. induction places as [|p places IH]; intros w; [intros []|].
  rewrite detailCalls_cons. simpl. intros [H | H]; [|exact (IH _ H)].
  destruct (getDetails (place_id p) LegacyService.detailFields w)
    as [[r status] w1] eqn:E.
  assert (Hcase : (exists d, r = Some d /\ status = OK)
                  \/ (status <> OK \/ r = None)).
  { destruct r as [d|]; [|now right; right].
    destruct status; try (right; left; discriminate). left. eauto. }
  destruct Hcase as [(d & -> & ->) | Hbad].
  - rewrite (Legacy_getDetailsPromise_OK _ _ _ _ E) in H. discriminate.
  - rewrite (Legacy_getDetailsPromise_rejects _ _ _ _ _ E Hbad) in H.
    injection H as <-. eauto.
Qed.

Lemma Promise_all_rejects {A} (settled : list (Exn + A)) e :
  In (inl e) settled ->
  exists e', In (inl e') settled /\ LegacyService.Promise_all settled = inl e'.
Proof.
  induction settled as [|[e0|a] settled IH]; simpl; [intros []| |].
  - intros _. exists e0. auto.
  - intros [H | H]; [discriminate|].
    destruct (IH H) as (e' & Hin & ->). eauto.
Qed.

(** X18.  The older search is all or nothing.  Any nearby-search answer
    other than OK with a list, ZERO_RESULTS included, rejects it before
    any detail fetch.  One failed detail fetch rejects it with a detail
    error, although every fetch was issued.  When it returns, it has no
    more businesses than a non-negative limit, counts exactly the
    businesses it returns, never announces more, and every business
    passed the older filter and is not permanently closed. *)
Theorem legacy_search_spec :
  forall params w first others w1,
    geocode (p_location params) w = ((Some (first :: others), G_OK), w1) ->
    let request :=
      {| rq_location := gr_location first;
         rq_radius := p_radius params;
         rq_type :=
           match p_categories params with
           | Some (c :: _) => Some c
           | _ => None
           end;
         rq_keyword := None |} in
    let run :=
      LegacyService.searchBusinesses URL_hostname World geocode nearbySearch
        getDetails Date_now params w in
    (forall r status w2,
        nearbySearch request w1 = ((r, status), w2) ->
        status <> OK \/ r = None ->
        run = (inl (Error ("Places search failed: "
                           ++ PlacesServiceStatus_to_string status)), w2))
    /\ (forall results w2 e,
          nearbySearch request w1 = ((Some results, OK), w2) ->
          In (inl e)
            (fst (LegacyService.detailCalls World getDetails results w2)) ->
          exists status,
            run = (inl (Error ("Place details failed: "
                               ++ PlacesServiceStatus_to_string status)),
                   snd (LegacyService.detailCalls World getDetails results w2)))
    /\ (forall r w',
          run = (inr r, w') ->
          LegacyService.l_hasMore r = false
          /\ LegacyService.l_totalCount r
             = Z.of_nat (length (LegacyService.l_businesses r))
          /\ (0 <= limitOf params ->
              Z.of_nat (length (LegacyService.l_businesses r))
              <= limitOf params)
          /\ forall b,
               In b (LegacyService.l_businesses r) ->
               LegacyService.keep (p_excludeWebsiteTypes params) b = true
               /\ LegacyService.l_businessStatus b <> "PERMANENTLY_CLOSED").
Proof.
  intros params w first others w1 Hg request run.
  assert (Hrun : run
                 = Async.bind
                     (LegacyService.nearbySearchPromise World nearbySearch
                        request)
                     (fun searchResult =>
                        Async.bind
                          (LegacyService.allDetails World getDetails
                             searchResult)
                          (fun detailedPlaces =>
                             Async.bind
                               (Async.mapM
                                  (fun place =>
                                     LegacyService.mapPlaceToBusiness
                                       URL_hostname World Date_now place
                                       (p_location params)) detailedPlaces)
                               (fun mapped =>
                                  let businesses :=
                                    JS.slice
                                      (filter
                                         (LegacyService.keep
                                            (p_excludeWebsiteTypes params))
                                         mapped) 0 (limitOf params) in
                                  Async.ret
                                    {| LegacyService.l_businesses := businesses;
                                       LegacyService.l_totalCount :=
                                         Z.of_nat (length businesses);
                                       LegacyService.l_hasMore := false |})))
                     w1).
  { subst run. unfold LegacyService.searchBusinesses.
    unfold Async.bind at 1. rewrite (geocodePromise_OK _ _ _ _ _ _ Hg).
    reflexivity. }
  split; [|split].
  - intros r status w2 Hn Hbad. rewrite Hrun. unfold Async.bind at 1.
    unfold LegacyService.nearbySearchPromise, Async.bind, Async.call.
    rewrite Hn. destruct r, status; try reflexivity; destruct Hbad; congruence.
  - intros results w2 e Hn Hin. rewrite Hrun. unfold Async.bind at 1.
    unfold LegacyService.nearbySearchPromise at 1.
    unfold Async.bind at 1, Async.call at 1. rewrite Hn.
    unfold Async.ret at 1. unfold Async.bind at 1.
    unfold LegacyService.allDetails.
    destruct (LegacyService.detailCalls World getDetails results w2)
      as [settled w3] eqn:Ec.
    simpl in Hin. destruct (Promise_all_rejects settled e Hin)
      as (e' & Hin' & ->).
    assert (Hin'' : In (inl e')
                      (fst (LegacyService.detailCalls World getDetails
                              results w2))) by now rewrite Ec.
    apply detailCalls_errors in Hin'' as (status & ->).
    exists status. reflexivity.
  - intros r w' H. rewrite Hrun in H. unfold Async.bind at 1 in H.
    destruct (LegacyService.nearbySearchPromise World nearbySearch request w1)
      as [[e|results] w2]; [discriminate|].
    unfold Async.bind at 1 in H.
    destruct (LegacyService.allDetails World getDetails results w2)
      as [[e|detailed] w3]; [discriminate|].
    unfold Async.bind at 1 in H.
    destruct (Async.mapM _ detailed w3) as [[e|mapped] w4] eqn:Em;
      [discriminate|].
    unfold Async.ret in H. cbv zeta in H. injection H as <- <-.
    cbn [LegacyService.l_hasMore LegacyService.l_totalCount
           LegacyService.l_businesses].
    split; [reflexivity|]. split; [reflexivity|]. split.
    + intros Hl. rewrite slice_nonneg by lia. rewrite Z.sub_0_r.
      pose proof (firstn_le_length (Z.to_nat (limitOf params))
                    (skipn (Z.to_nat 0)
                       (filter (LegacyService.keep
                                  (p_excludeWebsiteTypes params)) mapped)))
        as Hle.
      apply Nat2Z.inj_le in Hle. lia.
    + intros b Hin.
      apply (Subseq_In _ _ _ (slice_Subseq _ _ _)) in Hin.
      apply filter_In in Hin as [_ Hk]. split; [exact Hk|].
      intros Hc. unfold LegacyService.keep in Hk. rewrite Hc in Hk.
      discriminate.
Qed.

End LegacyFacts.

Lemma analyzeBusiness_spec_witness :
  exists b w',
    LegacyService.analyzeBusiness Demo.URL_hostname Demo.World
      (Demo2.legacy_getDetails Demo.script_tiers) Demo.Date_now "b" []
    = (inr b, w')
    /\ LegacyService.l_searchQuery b = ""
    /\ LegacyService.l_category b = ["cafe"; "establishment"]
    /\ LegacyService.l_websiteType b = facebook.
Proof.
  destruct (analyzeBusiness_spec Demo.URL_hostname Demo.World
              (Demo2.legacy_getDetails Demo.script_tiers) Demo.Date_now
              "b" [] _ _ _ eq_refl) as [_ Hok].
  destruct (Hok _ eq_refl eq_refl) as [_ Hret].
  destruct (Hret {| g_location := Some Demo.here |} Demo.here eq_refl eq_refl)
    as (b & Hrun & Hq & Hc & Hw & _).
  exists b. eexists. split; [exact Hrun|].
  split; [exact Hq|]. split; [exact Hc | exact Hw].
Defined.

Lemma legacy_search_spec_witness :
  Demo2.legacy_run Demo.script_tiers (Demo.params 1500 None None None) []
  = (inl (Error "Places search failed: ZERO_RESULTS"),
     [ Demo.CallGeocode "Springfield";
       Demo.CallNearbySearch
         {| rq_location := Demo.here; rq_radius := 1500;
            rq_type := Some "cafe"; rq_keyword := None |} ]).
Proof.
  destruct (legacy_search_spec Demo.URL_hostname Demo.World
              (Demo.geocode Demo.script_tiers)
              (Demo.nearbySearch Demo.script_tiers)
              (Demo2.legacy_getDetails Demo.script_tiers) Demo.Date_now
              (Demo.params 1500 None None None) []
              {| gr_location := Demo.here |} [] _ eq_refl) as [Hz _].
  apply (Hz None ZERO_RESULTS); [reflexivity | left; discriminate].
Defined.

(** In the older search one failed detail fetch loses every business,
    where the current search loses one. *)
Example one_failed_fetch_old_and_new :
  (exists w',
      Demo2.legacy_run Demo.script_tiers (Demo.params 3000 None None None) []
      = (inl (Error "Place details failed: NOT_FOUND"), w')
      /\ length w' = 5%nat)
  /\ exists r w',
       Demo.run Demo.script_tiers (Demo.params 3000 None None None) []
       = (inr r, w')
       /\ length (businesses r) = 1%nat.
Proof.
  split.
  - eexists. split; [vm_compute; reflexivity | reflexivity].
  - do 2 eexists. split; [vm_compute; reflexivity | reflexivity].
Qed.

Lemma searchBusinesses_ids_NoDup_witness :
  exists r w',
    Demo.run Demo.script_echo (Demo.params 1000 None None None) []
    = (inr r, w')
    /\ map id (businesses r) = [Some "a"; Some "b"]
    /\ NoDup (map id (businesses r)).
Proof.
  assert (H : exists r w',
             Demo.run Demo.script_echo (Demo.params 1000 None None None) []
             = (inr r, w')
             /\ map id (businesses r) = [Some "a"; Some "b"]).
  { do 2 eexists. split; [vm_compute; reflexivity | reflexivity]. }
  destruct H as (r & w' & Hrun & Hids).
  exists r, w'. split; [exact Hrun|]. split; [exact Hids|].
  exact (searchBusinesses_ids_NoDup Demo.URL_hostname Demo.World
           (Demo.geocode Demo.script_echo) (Demo.nearbySearch Demo.script_echo)
           (Demo.getDetails Demo.script_echo) Demo.Date_now _ _ _ _
           script_echo_echoes Hrun).
Defined.
